(** * openapi_spec_validator.validators: a shallow embedding

    The validators of [openapi_spec_validator/validators.py] are Python
    generators over a parsed OpenAPI document.  A generator is embedded as
    the trace it produces when it is exhausted: the errors it yields, in
    order, followed by the way it stops (normal return, an exception that
    escapes, or a recursion that never comes back).  The only shared
    mutable object, the operation-id registry, is passed explicitly. *)

From Stdlib Require Import List String Ascii ZArith Bool Lia Arith.
Import ListNotations.
Open Scope string_scope.
Open Scope list_scope.

(** ** Document nodes *)

(** A parsed document node.  A Python [dict] keeps insertion order, which
    is the order [items()] iterates in, hence the association list.
    Numbers are integers; [JNull] is Python's [None]. *)
#[warnings="-register-all"]
Inductive JSON : Type :=
| JNull
| JBool (b : bool)
| JInt (z : Z)
| JStr (s : string)
| JArr (l : list JSON)
| JObj (m : list (string * JSON)).

(** [d.get(key)] on the entries of a dict, without default. *)
Fixpoint lookup (k : string) (m : list (string * JSON)) : option JSON :=
  match m with
  | [] => None
  | (k', v) :: r => if String.eqb k k' then Some v else lookup k r
  end.

(** [d.get(key, default)]. *)
Definition get (m : list (string * JSON)) (k : string) (default : JSON) : JSON :=
  match lookup k m with
  | Some v => v
  | None => default
  end.

(** [key in d] for a dict. *)
Definition has_key (k : string) (m : list (string * JSON)) : bool :=
  match lookup k m with
  | Some _ => true
  | None => false
  end.

(** [d.keys()]. *)
Definition keys (m : list (string * JSON)) : list string := map fst m.

Definition bool_to_Z (b : bool) : Z := if b then 1%Z else 0%Z.

(** Python's [==] on document nodes: [True == 1], lists are compared
    element by element, dicts regardless of the order of their keys. *)
Fixpoint py_eq (a b : JSON) {struct a} : bool :=
  match a, b with
  | JNull, JNull => true
  | JBool x, JBool y => Bool.eqb x y
  | JBool x, JInt z => Z.eqb (bool_to_Z x) z
  | JInt z, JBool y => Z.eqb z (bool_to_Z y)
  | JInt x, JInt y => Z.eqb x y
  | JStr x, JStr y => String.eqb x y
  | JArr l1, JArr l2 =>
      (fix all2 (l1 l2 : list JSON) : bool :=
         match l1, l2 with
         | [], [] => true
         | x :: xs, y :: ys => py_eq x y && all2 xs ys
         | _, _ => false
         end) l1 l2
  | JObj m1, JObj m2 =>
      Nat.eqb (List.length m1) (List.length m2) &&
      (fix sub (m : list (string * JSON)) : bool :=
         match m with
         | [] => true
         | (k, v) :: r =>
             match lookup k m2 with
             | Some v' => py_eq v v'
             | None => false
             end && sub r
         end) m1
  | _, _ => false
  end.

(** [x in l] for a Python list [l]. *)
Definition py_in (x : JSON) (l : list JSON) : bool := existsb (py_eq x) l.

(** Whether [hash(x)] succeeds: lists and dicts are unhashable. *)
Definition hashable (x : JSON) : bool :=
  match x with
  | JArr _ | JObj _ => false
  | _ => true
  end.

(** Truth value of a node, as [bool(x)]. *)
Definition py_truthy (x : JSON) : bool :=
  match x with
  | JNull => false
  | JBool b => b
  | JInt z => negb (Z.eqb z 0)
  | JStr s => negb (String.eqb s "")
  | JArr l => match l with [] => false | _ => true end
  | JObj m => match m with [] => false | _ => true end
  end.

(** The characters of a string, each as a one-character string. *)
Fixpoint chars (s : string) : list JSON :=
  match s with
  | EmptyString => []
  | String c r => JStr (String c EmptyString) :: chars r
  end.

(** Whether [p] occurs in [s] as a substring. *)
Fixpoint is_substring (p s : string) : bool :=
  if String.prefix p s then true
  else match s with
       | EmptyString => false
       | String _ r => is_substring p r
       end.

(** ** Outcomes, exceptions and errors *)

(** A violation descriptor of the generic schema-conformance engine. *)
Record Violation : Type := mkViolation {
  v_path : list string;
  v_message : string
}.

(** The error classes of [openapi_spec_validator.exceptions], together with
    jsonschema's own [ValidationError].  The formatted message of each
    class is kept as the values that are formatted into it. *)
Inductive Error : Type :=
| ValidationError (v : Violation)
| OpenAPIValidationError (v : Violation)
| ExtraParametersError (extra_properties : list JSON)
| ParameterDuplicateError (name : JSON)
| UnresolvableParameterError (path name url : string)
| DuplicateOperationIDError (operation_id : JSON) (name url : string).

(** Exceptions that are not findings: they are never yielded, they escape
    the validator that meets them and abort the pass. *)
Inductive Exn : Type :=
| KeyError (k : string)
| TypeError
| AttributeError
| ValueError
| RefResolutionError.

Inductive Outcome (A : Type) : Type :=
| Returns (a : A)
| Raises (x : Exn)
| Diverges.
Arguments Returns {A} a.
Arguments Raises {A} x.
Arguments Diverges {A}.

Definition obind {A B} (o : Outcome A) (f : A -> Outcome B) : Outcome B :=
  match o with
  | Returns a => f a
  | Raises x => Raises x
  | Diverges => Diverges
  end.

(** How a call of [validate] ends: it returns, it raises an error of the
    error stream, an exception of another kind passes through it, or it
    never returns. *)
Inductive Verdict : Type :=
| Passes
| RaisesError (err : Error)
| Propagates (x : Exn)
| NeverReturns.

(** [for x in v]: what iterating over a node visits. *)
Definition py_iter (v : JSON) : Outcome (list JSON) :=
  match v with
  | JArr l => Returns l
  | JStr s => Returns (chars s)
  | JObj m => Returns (map JStr (keys m))
  | _ => Raises TypeError
  end.

(** [v[key]] for a string key. *)
Definition py_getitem (v : JSON) (k : string) : Outcome JSON :=
  match v with
  | JObj m => match lookup k m with
              | Some x => Returns x
              | None => Raises (KeyError k)
              end
  | _ => Raises TypeError
  end.

(** [key in v] for a string key. *)
Definition py_contains (k : string) (v : JSON) : Outcome bool :=
  match v with
  | JObj m => Returns (has_key k m)
  | JArr l => Returns (py_in (JStr k) l)
  | JStr s => Returns (is_substring k s)
  | _ => Raises TypeError
  end.

(** [v.get(key, default)]: only a dict has [get]. *)
Definition py_get (v : JSON) (k : string) (default : JSON) : Outcome JSON :=
  match v with
  | JObj m => Returns (get m k default)
  | _ => Raises AttributeError
  end.

(** [v.items()]. *)
Definition py_items (v : JSON) : Outcome (list (string * JSON)) :=
  match v with
  | JObj m => Returns m
  | _ => Raises AttributeError
  end.

(** [set(l)] keeps one representative of each class of equal elements and
    needs every element hashable.  The iteration order of a Python set is
    unspecified; the model keeps first occurrences in list order. *)
Fixpoint dedup (l : list JSON) : list JSON :=
  match l with
  | [] => []
  | x :: r => x :: filter (fun y => negb (py_eq y x)) (dedup r)
  end.

Definition py_set (l : list JSON) : Outcome (list JSON) :=
  if forallb hashable l then Returns (dedup l) else Raises TypeError.

(** [a - b] on sets. *)
Definition set_diff (a b : list JSON) : list JSON :=
  filter (fun x => negb (py_in x b)) a.

(** ** Generators *)

(** The trace of an exhausted generator. *)
Definition Gen (A : Type) : Type := (list Error * Outcome A)%type.

Definition yields {A} (g : Gen A) : list Error := fst g.
Definition outcome {A} (g : Gen A) : Outcome A := snd g.

Definition ret {A} (a : A) : Gen A := ([], Returns a).
Definition raise {A} (x : Exn) : Gen A := ([], Raises x).
Definition yield (e : Error) : Gen unit := ([e], Returns tt).
Definition lift {A} (o : Outcome A) : Gen A := ([], o).

Definition bind {A B} (g : Gen A) (f : A -> Gen B) : Gen B :=
  match snd g with
  | Returns a => (fst g ++ fst (f a), snd (f a))
  | Raises x => (fst g, Raises x)
  | Diverges => (fst g, Diverges)
  end.

Declare Scope gen_scope.
Delimit Scope gen_scope with gen.
Notation "x <- c1 ;; c2" := (bind c1 (fun x => c2))
  (at level 100, c1 at next level, right associativity) : gen_scope.
Notation "c1 ;; c2" := (bind c1 (fun _ => c2))
  (at level 100, right associativity) : gen_scope.
Open Scope gen_scope.

(** [for x in l: yield from f(x)]. *)
Fixpoint for_each {A} (l : list A) (f : A -> Gen unit) : Gen unit :=
  match l with
  | [] => ret tt
  | x :: r => f x ;; for_each r f
  end.

(** Modelled from the spec: [decorators.ValidationErrorWrapper] is not
    under src/.  The spec has every validator forward findings verbatim,
    annotated at pipeline boundaries without altering their kind, and has
    the violations of the external engine mapped into this system's own
    error representation: an error that is not yet an
    [OpenAPIValidationError] is converted to one, every other error passes
    through. *)
Definition wrap_error (e : Error) : Error :=
  match e with
  | ValidationError v => OpenAPIValidationError v
  | _ => e
  end.

Definition wraps_errors {A} (g : Gen A) : Gen A := (map wrap_error (fst g), snd g).

(** ** The registry-carrying generators *)

(** A generator that also reads and appends to the operation-id registry
    ([seen_ids], a Python list shared by reference). *)
Definition StGen (A : Type) : Type := list JSON -> (Gen A * list JSON)%type.

Definition st_lift {A} (g : Gen A) : StGen A := fun seen => (g, seen).

Definition st_bind {A B} (c : StGen A) (f : A -> StGen B) : StGen B :=
  fun seen =>
    let r := c seen in
    match snd (fst r) with
    | Returns a =>
        let r' := f a (snd r) in
        ((fst (fst r) ++ fst (fst r'), snd (fst r')), snd r')
    | Raises x => ((fst (fst r), Raises x), snd r)
    | Diverges => ((fst (fst r), Diverges), snd r)
    end.

(** The current content of the registry. *)
Definition st_seen : StGen (list JSON) := fun seen => (ret seen, seen).

(** [seen_ids.append(x)]. *)
Definition st_append (x : JSON) : StGen unit := fun seen => (ret tt, seen ++ [x]).

Definition st_wraps_errors {A} (c : StGen A) : StGen A :=
  fun seen => (wraps_errors (fst (c seen)), snd (c seen)).

Notation "x <~ c1 ;; c2" := (st_bind c1 (fun x => c2))
  (at level 100, c1 at next level, right associativity) : gen_scope.
Notation "c1 ;;; c2" := (st_bind c1 (fun _ => c2))
  (at level 100, right associativity) : gen_scope.

(** [for x in l: yield from f(x)], with the registry threaded through. *)
Fixpoint st_for_each {A} (l : list A) (f : A -> StGen unit) : StGen unit :=
  match l with
  | [] => st_lift (ret tt)
  | x :: r => f x ;;; st_for_each r f
  end.

(** ** Reference resolution *)

(** jsonschema's [RefResolver]: the base URI it was created with, the
    document it refers into, and its stack of resolution scopes (the head
    of the list is the top of the stack). *)
Record RefResolver : Type := mkRefResolver {
  base_uri : string;
  referrer : JSON;
  scopes_stack : list string
}.

(** [RefResolver(base_uri, referrer, handlers=...)]. *)
Definition new_RefResolver (base_uri : string) (referrer : JSON) : RefResolver :=
  mkRefResolver base_uri referrer [base_uri].

(** [resolver.push_scope(url)], undone by [pop_scope] when the [with]
    block of [resolving] is left. *)
Definition push_scope (url : string) (r : RefResolver) : RefResolver :=
  mkRefResolver (base_uri r) (referrer r) (url :: scopes_stack r).

(** Modelled from the spec: [managers.ResolverManager] is not under src/.
    The spec has the dereferencer resolve a reference against the current
    Resolution Scope of the wrapped resolver: [in_scope] hands out that
    resolver as it is. *)
Definition in_scope (item : JSON) (resolver : RefResolver) : RefResolver := resolver.

Definition is_none (x : JSON) : bool :=
  match x with
  | JNull => true
  | _ => false
  end.

(** [x is True]. *)
Definition is_true (x : JSON) : bool :=
  match x with
  | JBool true => true
  | _ => false
  end.

Definition is_ref (spec : JSON) : bool :=
  match spec with
  | JObj m => has_key "$ref" m
  | _ => false
  end.

(** One item of [string.Formatter().parse]:
    (literal_text, field_name, format_spec, conversion). *)
Definition ParseItem : Type :=
  (string * option string * option string * option string)%type.

Definition field_name (item : ParseItem) : option string := snd (fst (fst item)).

(** [filter(None, l)] on field names: [None] and the empty string go. *)
Fixpoint filter_None (l : list (option string)) : list string :=
  match l with
  | [] => []
  | Some s :: r => if String.eqb s "" then filter_None r else s :: filter_None r
  | None :: r => filter_None r
  end.

(** The violations of the external engine enter the error stream as
    jsonschema [ValidationError]s. *)
Definition from_engine (r : list Violation * Outcome unit) : Gen unit :=
  (map ValidationError (fst r), snd r).

Definition OPERATIONS : list string :=
  ["get"; "put"; "post"; "delete"; "options"; "head"; "patch"; "trace"].

Definition str_in (s : string) (l : list string) : bool := existsb (String.eqb s) l.

(** [(name, in)] tuples: equality and membership in the [seen] set. *)
Definition key_eq (a b : JSON * JSON) : bool :=
  py_eq (fst a) (fst b) && py_eq (snd a) (snd b).

Definition key_in (k : JSON * JSON) (seen : list (JSON * JSON)) : bool :=
  existsb (key_eq k) seen.

(** [seen.add(key)]. *)
Definition seen_add (k : JSON * JSON) (seen : list (JSON * JSON)) : list (JSON * JSON) :=
  if key_in k seen then seen else seen ++ [k].

Definition nonempty {A} (l : list A) : bool :=
  match l with
  | [] => false
  | _ => true
  end.

(** ** The validators *)

Section Validators.

(** External collaborators, consumed at their interface. *)

(** [resolver.resolve(ref)]: the resolved URL and the target node. *)
Variable RefResolver_resolve : RefResolver -> JSON -> Outcome (string * JSON).

(** [validator_factory.create(resolver).iter_errors(spec)]: the generic
    whole-document conformance pass. *)
Variable validator_iter_errors : RefResolver -> JSON -> list Violation * Outcome unit.

(** [OAS31Validator(schema, resolver=..., format_checker=...).iter_errors(value)]. *)
Variable OAS31Validator_iter_errors :
  RefResolver -> JSON -> JSON -> list Violation * Outcome unit.

(** [string.Formatter().parse(url)], fully consumed. *)
Variable Formatter_parse : string -> Outcome (list ParseItem).

(** *** Dereferencer *)

(** [Dereferencer.dereference].  The recursion follows the reference
    chain, which need not end: [fuel] bounds the number of references
    followed and [Diverges] is the answer when it runs out. *)
Fixpoint dereference (fuel : nat) (resolver : RefResolver) (item : JSON)
  : Outcome JSON :=
  if is_none item || negb (is_ref item) then Returns item
  else
    match fuel with
    | O => Diverges
    | S fuel' =>
        obind (py_getitem item "$ref") (fun ref =>
        obind (RefResolver_resolve (in_scope item resolver) ref) (fun r =>
          let url := fst r in
          let target := snd r in
          if is_ref target
          then dereference fuel' (push_scope url resolver) target
          else Returns target))
    end.

(** *** ValueValidator *)

Definition ValueValidator_iter_errors (resolver : RefResolver)
    (schema value : JSON) : Gen unit :=
  wraps_errors (from_engine (OAS31Validator_iter_errors resolver schema value)).

(** *** SchemaValidator *)

(** [schema_deref.get('properties', {}).keys()]. *)
Definition py_keys (v : JSON) : Outcome (list JSON) :=
  match v with
  | JObj m => Returns (map JStr (keys m))
  | _ => Raises AttributeError
  end.

(** [list(set(required) - set(properties))] for the entries [m] of a
    dereferenced schema. *)
Definition extra_properties_of (m : list (string * JSON)) : Outcome (list JSON) :=
  let required := get m "required" (JArr []) in
  obind (py_keys (get m "properties" (JObj []))) (fun properties =>
  obind (obind (py_iter required) py_set) (fun required_set =>
  obind (py_set properties) (fun properties_set =>
    Returns (set_diff required_set properties_set)))).

(** The [required]/[properties] step of [SchemaValidator.iter_errors]. *)
Definition iter_required_errors (m : list (string * JSON))
    (require_properties : bool) : Gen unit :=
  extra_properties <- lift (extra_properties_of m) ;;
  if nonempty extra_properties && require_properties
  then yield (ExtraParametersError extra_properties)
  else ret tt.

(** The [default] step of [SchemaValidator.iter_errors]. *)
Definition iter_default_errors (resolver : RefResolver)
    (m : list (string * JSON)) : Gen unit :=
  if has_key "default" m then
    let default := get m "default" JNull in
    let nullable := get m "nullable" (JBool false) in
    if negb (is_none default) || negb (is_true nullable)
    then ValueValidator_iter_errors resolver (JObj m) default
    else ret tt
  else ret tt.

(** The [allOf] step of [SchemaValidator.iter_errors]; [iter_errors] is
    the recursive call. *)
Definition iter_allOf_errors (iter_errors : JSON -> bool -> Gen unit)
    (m : list (string * JSON)) : Gen unit :=
  if has_key "allOf" m then
    members <- lift (py_iter (get m "allOf" JNull)) ;;
    for_each members (fun inner_schema => iter_errors inner_schema false)
  else ret tt.

(** [SchemaValidator.iter_errors].  A schema can reach itself through
    [allOf] and a reference, so the recursion is bounded by [fuel]. *)
Fixpoint SchemaValidator_iter_errors (fuel : nat) (resolver : RefResolver)
    (schema : JSON) (require_properties : bool) : Gen unit :=
  match fuel with
  | O => lift Diverges
  | S fuel' =>
      wraps_errors (
        schema_deref <- lift (dereference fuel resolver schema) ;;
        match schema_deref with
        | JObj m =>
            iter_allOf_errors (SchemaValidator_iter_errors fuel' resolver) m ;;
            iter_required_errors m require_properties ;;
            iter_default_errors resolver m
        | _ => ret tt
        end)
  end.

(** *** ParameterValidator *)

Definition ParameterValidator_iter_errors (fuel : nat) (resolver : RefResolver)
    (parameter : JSON) : Gen unit :=
  wraps_errors (
    has_schema <- lift (py_contains "schema" parameter) ;;
    (if has_schema : bool then
       schema <- lift (py_getitem parameter "schema") ;;
       schema_deref <- lift (dereference fuel resolver schema) ;;
       SchemaValidator_iter_errors fuel resolver schema_deref true
     else ret tt) ;;
    has_default <- lift (py_contains "default" parameter) ;;
    if has_default : bool then
      default <- lift (py_getitem parameter "default") ;;
      if negb (is_none default)
      then ValueValidator_iter_errors resolver parameter default
      else ret tt
    else ret tt).

(** *** ParametersValidator *)

(** The [(name, in)] pair of a parameter, read after dereferencing it. *)
Definition parameter_key (fuel : nat) (resolver : RefResolver) (parameter : JSON)
  : Outcome (JSON * JSON) :=
  obind (dereference fuel resolver parameter) (fun parameter_deref =>
  obind (py_getitem parameter_deref "name") (fun name =>
  obind (py_getitem parameter_deref "in") (fun location =>
    Returns (name, location)))).

(** The loop of [ParametersValidator.iter_errors] from a given [seen]. *)
Fixpoint iter_parameters_from (fuel : nat) (resolver : RefResolver)
    (parameters : list JSON) (seen : list (JSON * JSON)) : Gen unit :=
  match parameters with
  | [] => ret tt
  | parameter :: rest =>
      parameter_deref <- lift (dereference fuel resolver parameter) ;;
      ParameterValidator_iter_errors fuel resolver parameter_deref ;;
      name <- lift (py_getitem parameter_deref "name") ;;
      location <- lift (py_getitem parameter_deref "in") ;;
      (if hashable name && hashable location then ret tt else raise TypeError) ;;
      (if key_in (name, location) seen
       then yield (ParameterDuplicateError name)
       else ret tt) ;;
      iter_parameters_from fuel resolver rest (seen_add (name, location) seen)
  end.

Definition ParametersValidator_iter_errors (fuel : nat) (resolver : RefResolver)
    (parameters : JSON) : Gen unit :=
  wraps_errors (
    l <- lift (py_iter parameters) ;;
    iter_parameters_from fuel resolver l []).

(** *** OperationValidator *)

(** [list(self._get_path_param_names(params))] over the items of [params]. *)
Fixpoint path_param_names_of (fuel : nat) (resolver : RefResolver)
    (params : list JSON) : Outcome (list JSON) :=
  match params with
  | [] => Returns []
  | param :: rest =>
      obind (dereference fuel resolver param) (fun param_deref =>
      obind (py_getitem param_deref "in") (fun location =>
        if py_eq location (JStr "path") then
          obind (py_getitem param_deref "name") (fun name =>
          obind (path_param_names_of fuel resolver rest) (fun names =>
            Returns (name :: names)))
        else path_param_names_of fuel resolver rest))
  end.

Definition OperationValidator_get_path_param_names (fuel : nat)
    (resolver : RefResolver) (params : JSON) : Outcome (list JSON) :=
  obind (py_iter params) (path_param_names_of fuel resolver).

Definition OperationValidator_get_path_params_from_url (url : string)
  : Outcome (list string) :=
  obind (Formatter_parse url) (fun items =>
    Returns (filter_None (map field_name items))).

(** One round of the last loop of [OperationValidator.iter_errors]. *)
Definition check_path_param (all_params : list JSON) (name url path : string)
  : Gen unit :=
  if negb (py_in (JStr path) all_params)
  then yield (UnresolvableParameterError path name url)
  else ret tt.

(** [OperationValidator.iter_errors] after the registry was updated. *)
Definition iter_operation_parameters (fuel : nat) (resolver : RefResolver)
    (url name : string) (m : list (string * JSON)) (path_parameters : JSON)
  : Gen unit :=
  let parameters := get m "parameters" (JArr []) in
  ParametersValidator_iter_errors fuel resolver parameters ;;
  path_names <- lift (OperationValidator_get_path_param_names fuel resolver path_parameters) ;;
  names <- lift (OperationValidator_get_path_param_names fuel resolver parameters) ;;
  all_params <- lift (py_set (path_names ++ names)) ;;
  paths <- lift (OperationValidator_get_path_params_from_url url) ;;
  for_each paths (check_path_param all_params name url).

Definition OperationValidator_iter_errors (fuel : nat) (resolver : RefResolver)
    (url name : string) (operation path_parameters : JSON) : StGen unit :=
  st_wraps_errors (
    let path_parameters :=
      if py_truthy path_parameters then path_parameters else JArr [] in
    operation_deref <~ st_lift (lift (dereference fuel resolver operation)) ;;
    match operation_deref with
    | JObj m =>
        let operation_id := get m "operationId" JNull in
        seen_ids <~ st_seen ;;
        st_lift (if negb (is_none operation_id) && py_in operation_id seen_ids
                 then yield (DuplicateOperationIDError operation_id name url)
                 else ret tt) ;;;
        st_append operation_id ;;;
        st_lift (iter_operation_parameters fuel resolver url name m path_parameters)
    | _ => st_lift (raise AttributeError)
    end).

(** *** PathItemValidator *)

(** One round of the loop over the fields of a path item. *)
Definition iter_field (fuel : nat) (resolver : RefResolver) (url : string)
    (parameters : JSON) (field : string * JSON) : StGen unit :=
  if negb (str_in (fst field) OPERATIONS) then st_lift (ret tt)
  else OperationValidator_iter_errors fuel resolver url (fst field) (snd field)
         parameters.

(** [PathItemValidator.iter_errors]: the parameters come from the
    dereferenced node, the fields from the node as it was passed. *)
Definition PathItemValidator_iter_errors (fuel : nat) (resolver : RefResolver)
    (url : string) (path_item : JSON) : StGen unit :=
  st_wraps_errors (
    path_item_deref <~ st_lift (lift (dereference fuel resolver path_item)) ;;
    parameters <~ st_lift (lift (py_get path_item_deref "parameters" (JArr []))) ;;
    st_lift (ParametersValidator_iter_errors fuel resolver parameters) ;;;
    fields <~ st_lift (lift (py_items path_item)) ;;
    st_for_each fields (iter_field fuel resolver url parameters)).

(** What the specification describes: the fields, too, are those of the
    dereferenced path item. *)
Definition PathItemValidator_iter_errors_spec (fuel : nat) (resolver : RefResolver)
    (url : string) (path_item : JSON) : StGen unit :=
  st_wraps_errors (
    path_item_deref <~ st_lift (lift (dereference fuel resolver path_item)) ;;
    parameters <~ st_lift (lift (py_get path_item_deref "parameters" (JArr []))) ;;
    st_lift (ParametersValidator_iter_errors fuel resolver parameters) ;;;
    fields <~ st_lift (lift (py_items path_item_deref)) ;;
    st_for_each fields (iter_field fuel resolver url parameters)).

(** *** PathValidator, PathsValidator *)

Definition PathValidator_iter_errors (fuel : nat) (resolver : RefResolver)
    (url : string) (path_item : JSON) : StGen unit :=
  st_wraps_errors (
    path_item_deref <~ st_lift (lift (dereference fuel resolver path_item)) ;;
    PathItemValidator_iter_errors fuel resolver url path_item_deref).

Definition PathsValidator_iter_errors (fuel : nat) (resolver : RefResolver)
    (paths : JSON) : StGen unit :=
  st_wraps_errors (
    paths_deref <~ st_lift (lift (dereference fuel resolver paths)) ;;
    entries <~ st_lift (lift (py_items paths_deref)) ;;
    st_for_each entries (fun entry =>
      PathValidator_iter_errors fuel resolver (fst entry) (snd entry))).

(** *** SchemasValidator, ComponentsValidator *)

Definition SchemasValidator_iter_errors (fuel : nat) (resolver : RefResolver)
    (schemas : JSON) : Gen unit :=
  wraps_errors (
    schemas_deref <- lift (dereference fuel resolver schemas) ;;
    entries <- lift (py_items schemas_deref) ;;
    for_each entries (fun entry =>
      SchemaValidator_iter_errors fuel resolver (snd entry) true)).

Definition ComponentsValidator_iter_errors (fuel : nat) (resolver : RefResolver)
    (components : JSON) : Gen unit :=
  wraps_errors (
    components_deref <- lift (dereference fuel resolver components) ;;
    schemas <- lift (py_get components_deref "schemas" (JObj [])) ;;
    SchemasValidator_iter_errors fuel resolver schemas).

(** *** SpecValidator *)

(** [SpecValidator.iter_errors]: a [PathsValidator] is created per call,
    and with it a fresh, empty registry. *)
Definition SpecValidator_iter_errors (fuel : nat) (spec : JSON) (spec_url : string)
  : Gen unit :=
  wraps_errors (
    let spec_resolver := new_RefResolver spec_url spec in
    from_engine (validator_iter_errors spec_resolver spec) ;;
    paths <- lift (py_get spec "paths" (JObj [])) ;;
    fst (PathsValidator_iter_errors fuel spec_resolver paths []) ;;
    components <- lift (py_get spec "components" (JObj [])) ;;
    ComponentsValidator_iter_errors fuel spec_resolver components).

(** [SpecValidator.validate]: the loop body raises at the first error
    pulled from the generator, so nothing after it is ever run; an
    exception that escapes the generator before that escapes [validate]
    as well. *)
Definition SpecValidator_validate (fuel : nat) (spec : JSON) (spec_url : string)
  : Verdict :=
  match yields (SpecValidator_iter_errors fuel spec spec_url) with
  | err :: _ => RaisesError err
  | [] =>
      match outcome (SpecValidator_iter_errors fuel spec spec_url) with
      | Returns _ => Passes
      | Raises x => Propagates x
      | Diverges => NeverReturns
      end
  end.

End Validators.

(** ** Error kinds *)

(** The taxonomy of findings.  A violation of the external engine is a
    [SchemaViolation] before and after it is wrapped. *)
Inductive ErrorKind : Type :=
| SchemaViolation
| ExtraParameters
| ParameterDuplicate
| UnresolvableParameter
| DuplicateOperationID.

Definition kind (e : Error) : ErrorKind :=
  match e with
  | ValidationError _ => SchemaViolation
  | OpenAPIValidationError _ => SchemaViolation
  | ExtraParametersError _ => ExtraParameters
  | ParameterDuplicateError _ => ParameterDuplicate
  | UnresolvableParameterError _ _ _ => UnresolvableParameter
  | DuplicateOperationIDError _ _ _ => DuplicateOperationID
  end.

Definition ErrorKind_eqb (a b : ErrorKind) : bool :=
  match a, b with
  | SchemaViolation, SchemaViolation
  | ExtraParameters, ExtraParameters
  | ParameterDuplicate, ParameterDuplicate
  | UnresolvableParameter, UnresolvableParameter
  | DuplicateOperationID, DuplicateOperationID => true
  | _, _ => false
  end.

Definition has_kind (k : ErrorKind) (e : Error) : bool := ErrorKind_eqb (kind e) k.

(** The errors of kind [k] in an error stream, in order. *)
Definition of_kind (k : ErrorKind) (l : list Error) : list Error :=
  filter (has_kind k) l.

(** Every error of the stream has one of the kinds [ks]. *)
Definition kinds_within (ks : list ErrorKind) (l : list Error) : Prop :=
  Forall (fun e => In (kind e) ks) l.

(** One step along a reference chain: [item] is a reference node, its
    reference resolves to [target], and the resolver goes on in the scope
    of the resolved URL. *)
Definition follows (resolve : RefResolver -> JSON -> Outcome (string * JSON))
    (r : RefResolver) (item : JSON) (r' : RefResolver) (target : JSON) : Prop :=
  is_ref item = true /\
  exists ref url,
    py_getitem item "$ref" = Returns ref /\
    resolve (in_scope item r) ref = Returns (url, target) /\
    r' = push_scope url r.

(** The node at the end of a finite reference chain: a node that is not a
    reference is its own end, and a reference node has the end of the
    node it resolves to. *)
Inductive reaches (resolve : RefResolver -> JSON -> Outcome (string * JSON))
  : RefResolver -> JSON -> JSON -> Prop :=
| reaches_here (r : RefResolver) (x : JSON) :
    is_ref x = false -> reaches resolve r x x
| reaches_step (r r' : RefResolver) (x target v : JSON) :
    follows resolve r x r' target -> reaches resolve r' target v ->
    reaches resolve r x v.

(** The reference nodes met along a chain: [reaches_ref r x r' y] when
    following the chain from [x] meets the reference node [y], with the
    resolver then in state [r']. *)
Inductive reaches_ref (resolve : RefResolver -> JSON -> Outcome (string * JSON))
  : RefResolver -> JSON -> RefResolver -> JSON -> Prop :=
| reaches_ref_here (r : RefResolver) (y : JSON) :
    is_ref y = true -> reaches_ref resolve r y r y
| reaches_ref_step (r r1 r2 : RefResolver) (x target y : JSON) :
    follows resolve r x r1 target -> is_ref target = true ->
    reaches_ref resolve r1 target r2 y ->
    reaches_ref resolve r x r2 y.

(** A registry-carrying generator that only appends to the registry. *)
Definition only_appends {A} (c : StGen A) : Prop :=
  forall seen_ids, exists added, snd (c seen_ids) = seen_ids ++ added.

(** The fields of a path item that [PathItemValidator.iter_errors] reads:
    the operations and the path-level parameters. *)
Definition is_validated_field (field : string * JSON) : bool :=
  str_in (fst field) OPERATIONS || String.eqb (fst field) "parameters".

(** The kinds a schema validation can report. *)
Definition schema_kinds (require_properties : bool) : list ErrorKind :=
  SchemaViolation :: (if require_properties then [ExtraParameters] else []).

(** A stream that is already wrapped: wrapping it again changes nothing. *)
Definition wrapped (l : list Error) : Prop := map wrap_error l = l.

(** ** Duplicate parameters, in the words of the specification *)

(** The names reported for a list of [(name, location)] pairs: one at
    each occurrence of a pair that is already among the [earlier] ones. *)
Fixpoint repeated_names (earlier l : list (JSON * JSON)) : list JSON :=
  match l with
  | [] => []
  | k :: r =>
      (if key_in k earlier then [fst k] else []) ++ repeated_names (earlier ++ [k]) r
  end.

(** Every pair of the list can be hashed. *)
Definition keys_hashable (l : list (JSON * JSON)) : Prop :=
  Forall (fun k => hashable (fst k) && hashable (snd k) = true) l.

(** ** Concrete collaborators, for closed examples *)

Module Local.

(** Splits [s] at every ['/']. *)
Fixpoint tokens_from (s acc : string) : list string :=
  match s with
  | EmptyString => [acc]
  | String c r =>
      if Ascii.eqb c "/"%char then acc :: tokens_from r EmptyString
      else tokens_from r (acc ++ String c EmptyString)%string
  end.

(** Follows the tokens of a JSON pointer through nested objects. *)
Fixpoint walk (doc : JSON) (path : list string) : option JSON :=
  match path with
  | [] => Some doc
  | k :: r =>
      match doc with
      | JObj m => match lookup k m with
                  | Some v => walk v r
                  | None => None
                  end
      | _ => None
      end
  end.

(** A resolver for references of the form [#/a/b] into the referring
    document itself; every other reference is unresolvable. *)
Definition resolve (r : RefResolver) (ref : JSON) : Outcome (string * JSON) :=
  match ref with
  | JStr (String "#" (String "/" p) as s) =>
      match walk (referrer r) (tokens_from p EmptyString) with
      | Some v => Returns (s, v)
      | None => Raises RefResolutionError
      end
  | _ => Raises RefResolutionError
  end.

(** A conformance engine that finds nothing. *)
Definition no_violations (r : RefResolver) (spec : JSON)
  : list Violation * Outcome unit := ([], Returns tt).

Definition no_value_violations (r : RefResolver) (schema value : JSON)
  : list Violation * Outcome unit := ([], Returns tt).

(** A conformance engine that finds one violation in every value. *)
Definition one_violation (r : RefResolver) (schema value : JSON)
  : list Violation * Outcome unit :=
  ([mkViolation [] "value does not conform"], Returns tt).

(** [Formatter.parse] on templates whose only markup is [{name}]:
    literal text up to a field, the field name up to its closing brace. *)
Fixpoint parse_from (s : string) (in_field : bool) (literal field : string)
  : Outcome (list ParseItem) :=
  match s with
  | EmptyString =>
      if in_field then Raises ValueError
      else if String.eqb literal "" then Returns []
      else Returns [(literal, None, None, None)]
  | String c r =>
      if in_field then
        if Ascii.eqb c "}"%char then
          obind (parse_from r false "" "") (fun items =>
            Returns ((literal, Some field, Some "", None) :: items))
        else if Ascii.eqb c "{"%char then Raises ValueError
        else parse_from r true literal (field ++ String c EmptyString)%string
      else if Ascii.eqb c "{"%char then parse_from r true literal ""
      else if Ascii.eqb c "}"%char then Raises ValueError
      else parse_from r false (literal ++ String c EmptyString)%string ""
  end.

Definition parse (url : string) : Outcome (list ParseItem) :=
  parse_from url false "" "".

End Local.

(** ** Documents used in the closed examples *)

Module Docs.

Definition ref (s : string) : JSON := JObj [("$ref", JStr s)].

(** [#/A -> #/B -> #/A]. *)
Definition circular : JSON :=
  JObj [("A", ref "#/B"); ("B", ref "#/A")].

(** [#/A -> #/B -> #/C], where [#/C] is a concrete schema. *)
Definition chain : JSON :=
  JObj [("A", ref "#/B"); ("B", ref "#/C");
        ("C", JObj [("type", JStr "object")])].

(** [{"required": ["a","b"], "properties": {"a": {}}}]. *)
Definition required_schema : JSON :=
  JObj [("required", JArr [JStr "a"; JStr "b"]);
        ("properties", JObj [("a", JObj [])])].

(** [{"allOf": [{"required": ["a"]}, {"properties": {"a": {}}}]}]. *)
Definition allOf_schema : JSON :=
  JObj [("allOf", JArr [JObj [("required", JArr [JStr "a"])];
                        JObj [("properties", JObj [("a", JObj [])])]])].

(** A schema whose default is null and that is marked nullable, and one
    that is not marked. *)
Definition nullable_schema : JSON :=
  JObj [("type", JStr "string"); ("nullable", JBool true); ("default", JNull)].

Definition not_nullable_schema : JSON :=
  JObj [("type", JStr "string"); ("default", JNull)].

(** Two parameters sharing the name ["id"] and the location ["path"]. *)
Definition id_in_path : JSON := JObj [("name", JStr "id"); ("in", JStr "path")].

Definition two_id_parameters : JSON := JArr [id_in_path; id_in_path].

(** A document whose only path has a placeholder that no parameter
    declares. *)
Definition unresolved_spec : JSON :=
  JObj [("paths", JObj [("/items/{id}", JObj [("get", JObj [])])])].


(** A document whose path item for ["/items/{id}"] is kept under [#/x]. *)
Definition shared_path_item : JSON :=
  JObj [("x", JObj [("get", JObj [])])].

(** Two operations under different URLs, with the same [operationId] and
    with none. *)
Definition same_id_spec : JSON :=
  JObj [("paths",
         JObj [("/a", JObj [("get", JObj [("operationId", JStr "listItems")])]);
               ("/b", JObj [("get", JObj [("operationId", JStr "listItems")])])])].

Definition no_id_spec : JSON :=
  JObj [("paths", JObj [("/a", JObj [("get", JObj [])]);
                        ("/b", JObj [("get", JObj [])])])].

(** [#/A -> #/B -> #/missing], where nothing is kept under [#/missing]. *)
Definition dangling : JSON :=
  JObj [("A", ref "#/B"); ("B", ref "#/missing")].

(** A path item kept under [#/x] with path-level parameters, an
    operation and fields that are not operations. *)
Definition item_path_item : JSON :=
  JObj [("summary", JStr "one item");
        ("parameters", JArr [id_in_path]);
        ("get", JObj [("operationId", JStr "getItem")]);
        ("x-internal", JBool true)].

Definition referenced_paths : JSON :=
  JObj [("x", item_path_item)].

(** A schema kept under [#/Node] that lists itself in its [allOf]. *)
Definition self_allOf : JSON :=
  JObj [("Node", JObj [("allOf", JArr [ref "#/Node"])])].

(** An [allOf] member whose [required] names a property it does not
    declare and whose [default] is [1], and schemas that contain it. *)
Definition member_with_default : JSON :=
  JObj [("required", JArr [JStr "a"]); ("default", JInt 1)].

Definition allOf_default_schema : JSON :=
  JObj [("allOf", JArr [member_with_default])].

Definition allOf_checked_schema : JSON :=
  JObj [("allOf", JArr [member_with_default;
                        JObj [("properties", JObj [("a", JObj [])])]]);
        ("required", JArr [JStr "b"])].

End Docs.

(** * Properties *)

(** ** Generators: basic facts *)

Lemma yields_bind {A B} (g : Gen A) (f : A -> Gen B) (a : A) :
  outcome g = Returns a -> yields (bind g f) = yields g ++ yields (f a).
Proof.
  unfold outcome, yields, bind. intros ->. reflexivity.
Qed.

Lemma outcome_bind {A B} (g : Gen A) (f : A -> Gen B) (a : A) :
  outcome g = Returns a -> outcome (bind g f) = outcome (f a).
Proof.
  unfold outcome, bind. intros ->. reflexivity.
Qed.

Lemma bind_returns_eq {A B} (g : Gen A) (f : A -> Gen B) (a : A) :
  outcome g = Returns a -> bind g f = (yields g ++ yields (f a), outcome (f a)).
Proof. unfold outcome, yields, bind. intros ->. reflexivity. Qed.

Lemma bind_returns_inv {A B} (g : Gen A) (f : A -> Gen B) (b : B) :
  outcome (bind g f) = Returns b ->
  exists a, outcome g = Returns a /\ outcome (f a) = Returns b.
Proof.
  unfold outcome, bind. destruct (snd g) as [a| |]; simpl; intros H;
    try discriminate. exists a. split; [reflexivity | exact H].
Qed.

Lemma bind_lift_returns {A B} (a : A) (f : A -> Gen B) :
  bind (lift (Returns a)) f = f a.
Proof.
  unfold bind, lift. simpl. destruct (f a). reflexivity.
Qed.

Lemma bind_ret {A B} (a : A) (f : A -> Gen B) : bind (ret a) f = f a.
Proof. exact (bind_lift_returns a f). Qed.

Lemma yields_wraps_errors {A} (g : Gen A) :
  yields (wraps_errors g) = map wrap_error (yields g).
Proof. reflexivity. Qed.

Lemma outcome_wraps_errors {A} (g : Gen A) :
  outcome (wraps_errors g) = outcome g.
Proof. reflexivity. Qed.

Lemma kind_wrap_error (e : Error) : kind (wrap_error e) = kind e.
Proof. destruct e; reflexivity. Qed.

Lemma of_kind_app (k : ErrorKind) (l1 l2 : list Error) :
  of_kind k (l1 ++ l2) = of_kind k l1 ++ of_kind k l2.
Proof. unfold of_kind. apply filter_app. Qed.

(** Wrapping changes no error except a raw violation of the engine. *)
Lemma of_kind_wrap (k : ErrorKind) (l : list Error) :
  k <> SchemaViolation -> of_kind k (map wrap_error l) = of_kind k l.
Proof.
  intros Hk. unfold of_kind. induction l as [|e l IH]; simpl; [reflexivity|].
  rewrite IH. unfold has_kind. rewrite kind_wrap_error.
  destruct e, k; simpl; try reflexivity; exfalso; apply Hk; reflexivity.
Qed.

Lemma kinds_within_nil (ks : list ErrorKind) : kinds_within ks [].
Proof. constructor. Qed.

Lemma kinds_within_app (ks : list ErrorKind) (l1 l2 : list Error) :
  kinds_within ks l1 -> kinds_within ks l2 -> kinds_within ks (l1 ++ l2).
Proof. unfold kinds_within. intros. apply Forall_app. split; assumption. Qed.

Lemma kinds_within_wrap (ks : list ErrorKind) (l : list Error) :
  kinds_within ks l -> kinds_within ks (map wrap_error l).
Proof.
  unfold kinds_within. intros H. apply Forall_map.
  eapply Forall_impl; [|exact H]. intros e He. simpl.
  rewrite kind_wrap_error. exact He.
Qed.

Lemma kinds_within_weaken (ks ks' : list ErrorKind) (l : list Error) :
  incl ks ks' -> kinds_within ks l -> kinds_within ks' l.
Proof.
  unfold kinds_within. intros Hi H. eapply Forall_impl; [|exact H].
  intros e He. apply Hi. exact He.
Qed.

Lemma kinds_within_bind {A B} ks (g : Gen A) (f : A -> Gen B) :
  kinds_within ks (yields g) ->
  (forall a, outcome g = Returns a -> kinds_within ks (yields (f a))) ->
  kinds_within ks (yields (bind g f)).
Proof.
  unfold yields, outcome, bind. intros Hg Hf.
  destruct (snd g) as [a| |]; simpl; try exact Hg.
  apply kinds_within_app; [exact Hg | apply Hf; reflexivity].
Qed.

Lemma kinds_within_for_each {A} ks (l : list A) (f : A -> Gen unit) :
  (forall x, In x l -> kinds_within ks (yields (f x))) ->
  kinds_within ks (yields (for_each l f)).
Proof.
  induction l as [|x l IH]; intros H; simpl.
  - apply kinds_within_nil.
  - apply kinds_within_bind.
    + apply H. left. reflexivity.
    + intros _ _. apply IH. intros y Hy. apply H. right. exact Hy.
Qed.

(** A stream without errors of kind [k]. *)
Lemma of_kind_outside (k : ErrorKind) (ks : list ErrorKind) (l : list Error) :
  kinds_within ks l -> ~ In k ks -> of_kind k l = [].
Proof.
  unfold kinds_within, of_kind. intros H Hk.
  induction H as [|e l He _ IH]; simpl; [reflexivity|].
  unfold has_kind at 1. destruct (ErrorKind_eqb (kind e) k) eqn:E; [|exact IH].
  exfalso. apply Hk. destruct (kind e), k; simpl in E; try discriminate; exact He.
Qed.

(** ** Dereferencer *)

Section DereferencerFacts.

Variable resolve : RefResolver -> JSON -> Outcome (string * JSON).

Lemma is_none_not_ref (x : JSON) : is_none x = true -> is_ref x = false.
Proof. destruct x; simpl; intros H; try discriminate; reflexivity. Qed.

(** Dereferencing a node that is not a reference is the identity. *)
Lemma dereference_not_ref (fuel : nat) (r : RefResolver) (x : JSON) :
  is_ref x = false -> dereference resolve fuel r x = Returns x.
Proof.
  intros H. destruct fuel; simpl; rewrite H; simpl;
    rewrite orb_true_r; reflexivity.
Qed.

Lemma dereference_returns_not_ref (fuel : nat) :
  forall (r : RefResolver) (x v : JSON),
    dereference resolve fuel r x = Returns v -> is_ref v = false.
Proof.
  induction fuel as [|fuel IH]; intros r x v; simpl.
  - destruct (is_none x || negb (is_ref x)) eqn:E; [|discriminate].
    intros [= <-]. apply orb_true_iff in E as [E|E].
    + apply is_none_not_ref. exact E.
    + apply negb_true_iff. exact E.
  - destruct (is_none x || negb (is_ref x)) eqn:E.
    + intros [= <-]. apply orb_true_iff in E as [E|E].
      * apply is_none_not_ref. exact E.
      * apply negb_true_iff. exact E.
    + destruct (py_getitem x "$ref") as [ref| |]; simpl; try discriminate.
      destruct (resolve (in_scope x r) ref) as [[url target]| |]; simpl;
        try discriminate.
      destruct (is_ref target) eqn:T.
      * apply IH.
      * intros [= <-]. exact T.
Qed.

(** More fuel does not change what was returned. *)
Lemma dereference_fuel_monotone (fuel : nat) :
  forall (fuel' : nat) (r : RefResolver) (x v : JSON),
    fuel <= fuel' ->
    dereference resolve fuel r x = Returns v ->
    dereference resolve fuel' r x = Returns v.
Proof.
  induction fuel as [|fuel IH]; intros fuel' r x v Hle.
  - simpl. destruct (is_none x || negb (is_ref x)) eqn:E; [|discriminate].
    intros [= <-]. destruct fuel'; simpl; rewrite E; reflexivity.
  - destruct fuel' as [|fuel']; [lia|]. simpl.
    destruct (is_none x || negb (is_ref x)); [exact (fun H => H)|].
    destruct (py_getitem x "$ref") as [ref| |]; simpl; try discriminate.
    destruct (resolve (in_scope x r) ref) as [[url target]| |]; simpl;
      try discriminate.
    destruct (is_ref target); [|exact (fun H => H)].
    apply IH. lia.
Qed.

(** A chain on which every node is a reference that resolves to the next
    one is never left: no bound on the references followed is enough. *)
Lemma dereference_endless_chain (on_chain : RefResolver -> JSON -> Prop) :
  (forall r x, on_chain r x ->
     exists r' target,
       follows resolve r x r' target /\ is_ref target = true /\ on_chain r' target) ->
  forall (fuel : nat) (r : RefResolver) (x : JSON),
    on_chain r x -> dereference resolve fuel r x = Diverges.
Proof.
  intros Hstep. induction fuel as [|fuel IH]; intros r x Hx;
    destruct (Hstep r x Hx) as (r' & target & Hf & Ht & Hn);
    destruct Hf as (Hr & ref & url & Hg & Hres & ->); simpl.
  - assert (N : is_none x = false) by (destruct x; try discriminate; reflexivity).
    rewrite N, Hr. reflexivity.
  - assert (N : is_none x = false) by (destruct x; try discriminate; reflexivity).
    rewrite N, Hr. simpl. rewrite Hg. simpl. rewrite Hres. simpl. rewrite Ht.
    apply IH. exact Hn.
Qed.

End DereferencerFacts.

(** C10: whenever [dereference] returns, the node it returns is not a
    reference node, and dereferencing that node again, with any resolver
    state, returns it unchanged: [dereference] is idempotent. *)
Theorem dereference_idempotent
    (resolve : RefResolver -> JSON -> Outcome (string * JSON))
    (fuel : nat) (r : RefResolver) (x v : JSON) :
  dereference resolve fuel r x = Returns v ->
  is_ref v = false /\
  (forall fuel' r', dereference resolve fuel' r' v = Returns v) /\
  obind (dereference resolve fuel r x) (dereference resolve fuel r)
    = dereference resolve fuel r x.
Proof.
  intros H. pose proof (dereference_returns_not_ref resolve fuel r x v H) as Hv.
  split; [exact Hv|]. split.
  - intros fuel' r'. apply dereference_not_ref. exact Hv.
  - rewrite H. simpl. apply dereference_not_ref. exact Hv.
Qed.

(** The chain [#/A -> #/B -> #/C] is followed to the schema at [#/C]. *)
Lemma dereference_idempotent_witness :
  let r := new_RefResolver "" Docs.chain in
  let v := JObj [("type", JStr "object")] in
  dereference Local.resolve 3 r (Docs.ref "#/A") = Returns v /\
  is_ref v = false /\
  (forall fuel' r', dereference Local.resolve fuel' r' v = Returns v) /\
  obind (dereference Local.resolve 3 r (Docs.ref "#/A"))
        (dereference Local.resolve 3 r)
    = dereference Local.resolve 3 r (Docs.ref "#/A").
Proof.
  split; [reflexivity|].
  apply (dereference_idempotent Local.resolve 3
           (new_RefResolver "" Docs.chain) (Docs.ref "#/A")).
  reflexivity.
Defined.

(** Every resolver state met while following the circular chain refers
    into the same document, so both of its references resolve again. *)
Lemma circular_chain_endless (r : RefResolver) (x : JSON) :
  referrer r = Docs.circular /\ (x = Docs.ref "#/A" \/ x = Docs.ref "#/B") ->
  exists r' target,
    follows Local.resolve r x r' target /\ is_ref target = true /\
    (referrer r' = Docs.circular /\
     (target = Docs.ref "#/A" \/ target = Docs.ref "#/B")).
Proof.
  intros [Hr [-> | ->]].
  - exists (push_scope "#/A" r), (Docs.ref "#/B"). split; [|split].
    + split; [reflexivity|]. exists (JStr "#/A"), "#/A".
      split; [reflexivity|]. split; [|reflexivity].
      unfold Local.resolve, in_scope. rewrite Hr. reflexivity.
    + reflexivity.
    + split; [exact Hr | right; reflexivity].
  - exists (push_scope "#/B" r), (Docs.ref "#/A"). split; [|split].
    + split; [reflexivity|]. exists (JStr "#/B"), "#/B".
      split; [reflexivity|]. split; [|reflexivity].
      unfold Local.resolve, in_scope. rewrite Hr. reflexivity.
    + reflexivity.
    + split; [exact Hr | left; reflexivity].
Qed.

(** On the circular chain [#/A -> #/B -> #/A], whatever bound is put on
    the number of references [dereference] may follow, it is still
    following one when the bound is reached. *)
Lemma circular_chain_diverges (fuel : nat) :
  dereference Local.resolve fuel (new_RefResolver "" Docs.circular)
    (Docs.ref "#/A") = Diverges.
Proof.
  apply (dereference_endless_chain Local.resolve
           (fun r x => referrer r = Docs.circular /\
                       (x = Docs.ref "#/A" \/ x = Docs.ref "#/B"))).
  - exact circular_chain_endless.
  - split; [reflexivity | left; reflexivity].
Qed.

(** C1, as stated, fails: on the circular chain [#/A -> #/B -> #/A] there
    is no bound on the references followed within which [dereference]
    stops, be it with a node or with a failure. *)
Lemma dereference_circular_never_stops :
  ~ exists fuel,
      dereference Local.resolve fuel (new_RefResolver "" Docs.circular)
        (Docs.ref "#/A") <> Diverges.
Proof.
  intros [fuel H]. apply H. apply circular_chain_diverges.
Qed.

(** C1, amended: [dereference] has no cycle guard.  On a reference chain
    that never leaves the reference nodes (each node of the chain is a
    reference that resolves to a reference node of the chain, as on every
    circular chain) it re-enters itself once per reference, without
    bound: it returns no node and raises no failure of its own, and the
    call is ended only from outside, by the recursion limit of the
    interpreter. *)
Theorem dereference_circular_unguarded
    (resolve : RefResolver -> JSON -> Outcome (string * JSON))
    (on_chain : RefResolver -> JSON -> Prop) :
  (forall r x, on_chain r x ->
     exists r' target,
       follows resolve r x r' target /\ is_ref target = true /\ on_chain r' target) ->
  forall (fuel : nat) (r : RefResolver) (x : JSON),
    on_chain r x -> dereference resolve fuel r x = Diverges.
Proof.
  intros Hstep fuel r x Hx.
  exact (dereference_endless_chain resolve on_chain Hstep fuel r x Hx).
Qed.

Lemma dereference_circular_unguarded_witness :
  dereference Local.resolve 8 (new_RefResolver "" Docs.circular) (Docs.ref "#/A")
  = Diverges.
Proof.
  apply (dereference_circular_unguarded Local.resolve
           (fun r x => referrer r = Docs.circular /\
                       (x = Docs.ref "#/A" \/ x = Docs.ref "#/B"))
           circular_chain_endless 8).
  split; [reflexivity | left; reflexivity].
Defined.

Lemma yields_bind_prefix {A B} (g : Gen A) (f : A -> Gen B) :
  exists rest, yields (bind g f) = yields g ++ rest.
Proof.
  unfold yields, bind. destruct (snd g) as [a| |]; simpl.
  - exists (fst (f a)). reflexivity.
  - exists []. symmetry. apply app_nil_r.
  - exists []. symmetry. apply app_nil_r.
Qed.

Lemma of_kind_yields_wraps {A} (k : ErrorKind) (g : Gen A) :
  k <> SchemaViolation ->
  of_kind k (yields (wraps_errors g)) = of_kind k (yields g).
Proof. intros Hk. rewrite yields_wraps_errors. apply of_kind_wrap. exact Hk. Qed.

(** ** SchemaValidator *)

Section SchemaFacts.

Variable resolve : RefResolver -> JSON -> Outcome (string * JSON).
Variable engine : RefResolver -> JSON -> JSON -> list Violation * Outcome unit.

Local Abbreviation SV := (SchemaValidator_iter_errors resolve engine).
Local Abbreviation VV := (ValueValidator_iter_errors engine).

Lemma ValueValidator_kinds (r : RefResolver) (schema value : JSON) :
  kinds_within [SchemaViolation] (yields (VV r schema value)).
Proof.
  unfold ValueValidator_iter_errors, wraps_errors, from_engine, yields. simpl.
  unfold kinds_within. apply Forall_map. apply Forall_map.
  apply Forall_forall. intros v _. simpl. left. reflexivity.
Qed.

Lemma iter_default_errors_kinds (r : RefResolver) (m : list (string * JSON)) :
  kinds_within [SchemaViolation] (yields (iter_default_errors engine r m)).
Proof.
  unfold iter_default_errors.
  destruct (has_key "default" m); [|apply kinds_within_nil].
  destruct (negb (is_none (get m "default" JNull))
            || negb (is_true (get m "nullable" (JBool false))));
    [apply ValueValidator_kinds | apply kinds_within_nil].
Qed.

Lemma iter_allOf_errors_kinds (f : JSON -> bool -> Gen unit)
    (m : list (string * JSON)) :
  (forall s, kinds_within (schema_kinds false) (yields (f s false))) ->
  kinds_within (schema_kinds false) (yields (iter_allOf_errors f m)).
Proof.
  intros Hf. unfold iter_allOf_errors.
  destruct (has_key "allOf" m); [|apply kinds_within_nil].
  apply kinds_within_bind; [apply kinds_within_nil|].
  intros l _. apply kinds_within_for_each. intros s _. apply Hf.
Qed.

Lemma SchemaValidator_kinds (fuel : nat) :
  forall (r : RefResolver) (schema : JSON) (rp : bool),
    kinds_within (schema_kinds rp) (yields (SV fuel r schema rp)).
Proof.
  induction fuel as [|fuel IH]; intros r schema rp.
  - apply kinds_within_nil.
  - cbn [SchemaValidator_iter_errors]. rewrite yields_wraps_errors.
    apply kinds_within_wrap.
    apply kinds_within_bind; [apply kinds_within_nil|].
    intros sd _. destruct sd; try apply kinds_within_nil.
    apply kinds_within_bind.
    { apply kinds_within_weaken with (ks := schema_kinds false).
      - intros k [<-|[]]. left. reflexivity.
      - apply iter_allOf_errors_kinds. intros s. apply IH. }
    intros _ _. apply kinds_within_bind.
    { apply kinds_within_bind; [apply kinds_within_nil|].
      intros extra _.
      destruct (nonempty extra && rp) eqn:E; [|apply kinds_within_nil].
      apply andb_true_iff in E as [_ ->].
      constructor; [|constructor]. simpl. right. left. reflexivity. }
    intros _ _. apply kinds_within_weaken with (ks := [SchemaViolation]).
    + intros k [<-|[]]. left. reflexivity.
    + apply iter_default_errors_kinds.
Qed.

(** A call with [require_properties] false reports no
    [ExtraParametersError], at any depth. *)
Lemma SchemaValidator_not_required (fuel : nat) (r : RefResolver) (schema : JSON) :
  of_kind ExtraParameters (yields (SV fuel r schema false)) = [].
Proof.
  apply of_kind_outside with (ks := schema_kinds false).
  - apply SchemaValidator_kinds.
  - simpl. intros [H|[]]. discriminate H.
Qed.

(** [SchemaValidator.iter_errors] on a node that dereferences to a dict. *)
Lemma SchemaValidator_unfold (fuel : nat) (r : RefResolver) (schema : JSON)
    (m : list (string * JSON)) (rp : bool) :
  dereference resolve (S fuel) r schema = Returns (JObj m) ->
  SV (S fuel) r schema rp =
  wraps_errors (
    iter_allOf_errors (SV fuel r) m ;;
    iter_required_errors m rp ;;
    iter_default_errors engine r m).
Proof.
  intros H. cbn [SchemaValidator_iter_errors]. rewrite H.
  rewrite bind_lift_returns. reflexivity.
Qed.

Lemma iter_allOf_errors_no_extra (fuel : nat) (r : RefResolver)
    (m : list (string * JSON)) :
  of_kind ExtraParameters (yields (iter_allOf_errors (SV fuel r) m)) = [].
Proof.
  apply of_kind_outside with (ks := schema_kinds false).
  - apply iter_allOf_errors_kinds. intros s. apply SchemaValidator_kinds.
  - simpl. intros [H|[]]. discriminate H.
Qed.

Lemma iter_default_errors_no_extra (r : RefResolver) (m : list (string * JSON)) :
  of_kind ExtraParameters (yields (iter_default_errors engine r m)) = [].
Proof.
  apply of_kind_outside with (ks := [SchemaViolation]).
  - apply iter_default_errors_kinds.
  - simpl. intros [H|[]]. discriminate H.
Qed.

End SchemaFacts.

(** ** Equality and sets of hashable nodes *)

Lemma py_eq_refl (a : JSON) : hashable a = true -> py_eq a a = true.
Proof.
  destruct a; simpl; intros H; try discriminate; try reflexivity.
  - destruct b; reflexivity.
  - apply Z.eqb_refl.
  - apply String.eqb_refl.
Qed.

Lemma py_eq_sym (a b : JSON) :
  hashable a = true -> hashable b = true -> py_eq a b = py_eq b a.
Proof.
  destruct a, b; simpl; intros Ha Hb; try discriminate; try reflexivity.
  - destruct b, b0; reflexivity.
  - apply Z.eqb_sym.
  - apply Z.eqb_sym.
  - apply Z.eqb_sym.
  - apply String.eqb_sym.
Qed.

Lemma py_eq_trans (a b c : JSON) :
  hashable a = true -> hashable b = true -> hashable c = true ->
  py_eq a b = true -> py_eq b c = true -> py_eq a c = true.
Proof.
  destruct a, b; simpl; intros Ha Hb Hc Hab Hbc; try discriminate;
    destruct c; simpl in *; try discriminate; try reflexivity;
    repeat match goal with
           | H : Bool.eqb _ _ = true |- _ => apply Bool.eqb_prop in H
           | H : Z.eqb _ _ = true |- _ => apply Z.eqb_eq in H
           | H : String.eqb _ _ = true |- _ => apply String.eqb_eq in H
           end; subst;
    try apply Z.eqb_refl; try apply String.eqb_refl;
    try (apply Z.eqb_eq; congruence);
    try (destruct b; reflexivity);
    try (destruct b, b0; simpl in *; try reflexivity; discriminate);
    try apply Bool.eqb_reflx.
Qed.

(** Equal nodes are members of the same lists. *)
Lemma py_in_eq (x y : JSON) (l : list JSON) :
  hashable x = true -> hashable y = true -> forallb hashable l = true ->
  py_eq x y = true -> py_in x l = py_in y l.
Proof.
  intros Hx Hy Hl Hxy. unfold py_in. induction l as [|z l IH]; simpl; [reflexivity|].
  simpl in Hl. apply andb_true_iff in Hl as [Hz Hl]. rewrite (IH Hl). f_equal.
  destruct (py_eq y z) eqn:E.
  - apply (py_eq_trans x y z); assumption.
  - destruct (py_eq x z) eqn:E'; [|reflexivity].
    rewrite <- E. symmetry. apply (py_eq_trans y x z); try assumption.
    rewrite py_eq_sym; assumption.
Qed.

Lemma forallb_filter (p q : JSON -> bool) (l : list JSON) :
  forallb p l = true -> forallb p (filter q l) = true.
Proof.
  induction l as [|x l IH]; simpl; [reflexivity|].
  intros H. apply andb_true_iff in H as [Hx Hl].
  destruct (q x); simpl; [rewrite Hx; simpl|]; apply IH; exact Hl.
Qed.

Lemma dedup_hashable (l : list JSON) :
  forallb hashable l = true -> forallb hashable (dedup l) = true.
Proof.
  induction l as [|x l IH]; simpl; [reflexivity|].
  intros H. apply andb_true_iff in H as [Hx Hl]. rewrite Hx. simpl.
  apply forallb_filter. apply IH. exact Hl.
Qed.

Lemma py_in_filter_neq (x y : JSON) (l : list JSON) :
  hashable x = true -> hashable y = true -> forallb hashable l = true ->
  py_eq x y = false ->
  py_in x (filter (fun z => negb (py_eq z y)) l) = py_in x l.
Proof.
  intros Hx Hy Hl Hxy. unfold py_in.
  induction l as [|z l IH]; simpl; [reflexivity|].
  simpl in Hl. apply andb_true_iff in Hl as [Hz Hl].
  destruct (py_eq z y) eqn:E; simpl.
  - rewrite (IH Hl). destruct (py_eq x z) eqn:E'; [|reflexivity].
    rewrite (py_eq_trans x z y) in Hxy; try assumption. discriminate.
  - rewrite (IH Hl). reflexivity.
Qed.

(** [set(l)] has the members of [l]. *)
Lemma py_in_dedup (x : JSON) (l : list JSON) :
  hashable x = true -> forallb hashable l = true ->
  py_in x (dedup l) = py_in x l.
Proof.
  intros Hx. induction l as [|y l IH]; simpl; [reflexivity|].
  intros H. apply andb_true_iff in H as [Hy Hl].
  change (py_in x (y :: filter (fun z => negb (py_eq z y)) (dedup l)))
    with (py_eq x y || py_in x (filter (fun z => negb (py_eq z y)) (dedup l))).
  change (py_in x (y :: l)) with (py_eq x y || py_in x l).
  destruct (py_eq x y) eqn:E; [reflexivity|]. simpl.
  rewrite py_in_filter_neq; try assumption.
  - apply IH. exact Hl.
  - apply dedup_hashable. exact Hl.
Qed.

(** [a - b] has the members of [a] that are not members of [b]. *)
Lemma py_in_set_diff (x : JSON) (a b : list JSON) :
  hashable x = true -> forallb hashable a = true -> forallb hashable b = true ->
  py_in x (set_diff a b) = py_in x a && negb (py_in x b).
Proof.
  intros Hx Ha Hb. unfold set_diff.
  induction a as [|y a IH]; simpl; [reflexivity|].
  simpl in Ha. apply andb_true_iff in Ha as [Hy Ha].
  change (py_in x (y :: a)) with (py_eq x y || py_in x a).
  destruct (py_in y b) eqn:Eyb; simpl.
  - rewrite (IH Ha). destruct (py_eq x y) eqn:E; [|reflexivity]. simpl.
    rewrite (py_in_eq x y b Hx Hy Hb E), Eyb. simpl.
    apply andb_false_r.
  - change (py_in x (y :: filter (fun x0 => negb (py_in x0 b)) a))
      with (py_eq x y || py_in x (filter (fun x0 => negb (py_in x0 b)) a)).
    rewrite (IH Ha). destruct (py_eq x y) eqn:E; [|reflexivity]. simpl.
    rewrite (py_in_eq x y b Hx Hy Hb E), Eyb. reflexivity.
Qed.

(** ** Streams that are already wrapped *)

Lemma wrap_error_idempotent (e : Error) : wrap_error (wrap_error e) = wrap_error e.
Proof. destruct e; reflexivity. Qed.

Lemma wrapped_nil : wrapped [].
Proof. reflexivity. Qed.

Lemma wrapped_map (l : list Error) : wrapped (map wrap_error l).
Proof.
  unfold wrapped. rewrite map_map. apply map_ext. apply wrap_error_idempotent.
Qed.

Lemma wrapped_app (l1 l2 : list Error) : wrapped l1 -> wrapped l2 -> wrapped (l1 ++ l2).
Proof. unfold wrapped. intros H1 H2. rewrite map_app, H1, H2. reflexivity. Qed.

Lemma wrapped_bind {A B} (g : Gen A) (f : A -> Gen B) :
  wrapped (yields g) -> (forall a, wrapped (yields (f a))) ->
  wrapped (yields (bind g f)).
Proof.
  unfold yields, bind. intros Hg Hf. destruct (snd g) as [a| |]; simpl;
    try exact Hg. apply wrapped_app; [exact Hg | apply Hf].
Qed.

Lemma wrapped_for_each {A} (l : list A) (f : A -> Gen unit) :
  (forall x, wrapped (yields (f x))) -> wrapped (yields (for_each l f)).
Proof.
  intros Hf. induction l as [|x l IH]; simpl.
  - apply wrapped_nil.
  - apply wrapped_bind; [apply Hf | intros _; exact IH].
Qed.

Section SchemaSteps.

Variable resolve : RefResolver -> JSON -> Outcome (string * JSON).
Variable engine : RefResolver -> JSON -> JSON -> list Violation * Outcome unit.

Local Abbreviation SV := (SchemaValidator_iter_errors resolve engine).
Local Abbreviation VV := (ValueValidator_iter_errors engine).

Lemma SchemaValidator_wrapped (fuel : nat) (r : RefResolver) (schema : JSON)
    (rp : bool) : wrapped (yields (SV fuel r schema rp)).
Proof.
  destruct fuel; [apply wrapped_nil|].
  cbn [SchemaValidator_iter_errors]. rewrite yields_wraps_errors.
  apply wrapped_map.
Qed.

Lemma ValueValidator_wrapped (r : RefResolver) (schema value : JSON) :
  wrapped (yields (VV r schema value)).
Proof.
  unfold ValueValidator_iter_errors. rewrite yields_wraps_errors.
  apply wrapped_map.
Qed.

Lemma iter_allOf_errors_wrapped (fuel : nat) (r : RefResolver)
    (m : list (string * JSON)) :
  wrapped (yields (iter_allOf_errors (SV fuel r) m)).
Proof.
  unfold iter_allOf_errors. destruct (has_key "allOf" m); [|apply wrapped_nil].
  apply wrapped_bind; [apply wrapped_nil|]. intros l.
  apply wrapped_for_each. intros s. apply SchemaValidator_wrapped.
Qed.

Lemma iter_required_errors_wrapped (m : list (string * JSON)) (rp : bool) :
  wrapped (yields (iter_required_errors m rp)).
Proof.
  unfold iter_required_errors. apply wrapped_bind; [apply wrapped_nil|].
  intros extra. destruct (nonempty extra && rp); reflexivity.
Qed.

Lemma iter_default_errors_wrapped (r : RefResolver) (m : list (string * JSON)) :
  wrapped (yields (iter_default_errors engine r m)).
Proof.
  unfold iter_default_errors. destruct (has_key "default" m); [|apply wrapped_nil].
  destruct (negb (is_none (get m "default" JNull))
            || negb (is_true (get m "nullable" (JBool false))));
    [apply ValueValidator_wrapped | apply wrapped_nil].
Qed.

(** The errors of a schema validation are those of its three steps, as
    long as each step but the last returns. *)
Lemma SchemaValidator_steps (fuel : nat) (r : RefResolver) (schema : JSON)
    (m : list (string * JSON)) (rp : bool) :
  dereference resolve (S fuel) r schema = Returns (JObj m) ->
  outcome (iter_allOf_errors (SV fuel r) m) = Returns tt ->
  outcome (iter_required_errors m rp) = Returns tt ->
  yields (SV (S fuel) r schema rp) =
    yields (iter_allOf_errors (SV fuel r) m) ++
    yields (iter_required_errors m rp) ++
    yields (iter_default_errors engine r m) /\
  outcome (SV (S fuel) r schema rp) = outcome (iter_default_errors engine r m).
Proof.
  intros Hd Ha Hr. rewrite (SchemaValidator_unfold _ _ _ _ _ _ _ Hd).
  rewrite yields_wraps_errors, outcome_wraps_errors.
  rewrite (yields_bind _ _ tt Ha), (outcome_bind _ _ tt Ha).
  rewrite (yields_bind _ _ tt Hr), (outcome_bind _ _ tt Hr).
  split; [|reflexivity].
  rewrite !map_app.
  rewrite (iter_allOf_errors_wrapped fuel r m).
  rewrite (iter_required_errors_wrapped m rp).
  rewrite (iter_default_errors_wrapped r m). reflexivity.
Qed.

Lemma iter_required_errors_returns (m : list (string * JSON)) (rp : bool)
    (extra : list JSON) :
  extra_properties_of m = Returns extra ->
  iter_required_errors m rp =
    if nonempty extra && rp then yield (ExtraParametersError extra) else ret tt.
Proof.
  intros H. unfold iter_required_errors. rewrite H. apply bind_lift_returns.
Qed.

End SchemaSteps.

Lemma for_each_returns {A} (l : list A) (f : A -> Gen unit) :
  Forall (fun x => outcome (f x) = Returns tt) l ->
  for_each l f = (List.concat (map (fun x => yields (f x)) l), Returns tt).
Proof.
  induction 1 as [|x l Hx _ IH]; [reflexivity|].
  cbn [for_each map List.concat]. rewrite (bind_returns_eq _ _ tt Hx), IH. reflexivity.
Qed.

Lemma SchemaValidator_allOf_aborted
    (resolve : RefResolver -> JSON -> Outcome (string * JSON))
    (engine : RefResolver -> JSON -> JSON -> list Violation * Outcome unit)
    (fuel : nat) (r : RefResolver) (schema : JSON) (m : list (string * JSON))
    (rp : bool) :
  dereference resolve (S fuel) r schema = Returns (JObj m) ->
  outcome (iter_allOf_errors (SchemaValidator_iter_errors resolve engine fuel r) m)
    <> Returns tt ->
  SchemaValidator_iter_errors resolve engine (S fuel) r schema rp =
  iter_allOf_errors (SchemaValidator_iter_errors resolve engine fuel r) m.
Proof.
  intros Hd Ha. rewrite (SchemaValidator_unfold _ _ _ _ _ _ _ Hd).
  pose proof (iter_allOf_errors_wrapped resolve engine fuel r m) as W.
  unfold wrapped, yields in W. unfold outcome in Ha.
  destruct (iter_allOf_errors (SchemaValidator_iter_errors resolve engine fuel r) m)
    as [ys [[]| |]]; cbn [fst snd] in *.
  - exfalso. apply Ha. reflexivity.
  - unfold wraps_errors, bind. cbn [fst snd]. rewrite W. reflexivity.
  - unfold wraps_errors, bind. cbn [fst snd]. rewrite W. reflexivity.
Qed.

(** C5: the validation of a schema object with an [allOf] list validates
    every member of the list, in order and each with [require_properties]
    false, before anything else: when the members return, its errors are
    theirs, then those of its own [required] check, then those of its own
    [default]; when a member does not return, its errors and its ending
    are those of the members up to that one.  A validation with
    [require_properties] false reports no [ExtraParametersError], so a
    member whose [required] is not covered by its own [properties] is
    reported for its [default] only; and
    [{"allOf": [{"required": ["a"]}, {"properties": {"a": {}}}]}] is
    validated without any error. *)
Theorem schema_allOf_members_not_required
    (resolve : RefResolver -> JSON -> Outcome (string * JSON))
    (engine : RefResolver -> JSON -> JSON -> list Violation * Outcome unit) :
  (forall fuel r schema m members rp,
      dereference resolve (S fuel) r schema = Returns (JObj m) ->
      lookup "allOf" m = Some (JArr members) ->
      let member inner_schema :=
        SchemaValidator_iter_errors resolve engine fuel r inner_schema false in
      (Forall (fun inner_schema => outcome (member inner_schema) = Returns tt) members ->
       outcome (iter_required_errors m rp) = Returns tt ->
       SchemaValidator_iter_errors resolve engine (S fuel) r schema rp =
       (List.concat (map (fun inner_schema => yields (member inner_schema)) members)
          ++ yields (iter_required_errors m rp)
          ++ yields (iter_default_errors engine r m),
        outcome (iter_default_errors engine r m))) /\
      (outcome (for_each members member) <> Returns tt ->
       SchemaValidator_iter_errors resolve engine (S fuel) r schema rp =
       for_each members member)) /\
  (forall fuel r schema,
      of_kind ExtraParameters
        (yields (SchemaValidator_iter_errors resolve engine fuel r schema false)) = []) /\
  (forall fuel r,
      SchemaValidator_iter_errors resolve engine (S (S fuel)) r
        Docs.allOf_default_schema true =
      ValueValidator_iter_errors engine r Docs.member_with_default (JInt 1)) /\
  (forall fuel r,
      SchemaValidator_iter_errors resolve engine (S (S fuel)) r Docs.allOf_schema true
      = ([], Returns tt)).
Proof.
  split; [|split; [|split]].
  - intros fuel r schema m members rp Hd Hm member.
    assert (E : iter_allOf_errors (SchemaValidator_iter_errors resolve engine fuel r) m
                = for_each members member).
    { unfold iter_allOf_errors, has_key, get. rewrite Hm. simpl py_iter.
      rewrite bind_lift_returns. reflexivity. }
    split.
    + intros Hall Hr. pose proof (for_each_returns members member Hall) as F.
      assert (Ha : outcome (iter_allOf_errors
                              (SchemaValidator_iter_errors resolve engine fuel r) m)
                   = Returns tt) by (rewrite E, F; reflexivity).
      destruct (SchemaValidator_steps resolve engine fuel r schema m rp Hd Ha Hr)
        as [Hy Ho].
      apply injective_projections; cbn [fst snd].
      * fold (yields (SchemaValidator_iter_errors resolve engine (S fuel) r schema rp)).
        rewrite Hy, E, F. reflexivity.
      * exact Ho.
    + intros Hn. rewrite <- E in Hn |- *.
      apply SchemaValidator_allOf_aborted; assumption.
  - intros fuel r schema. apply SchemaValidator_not_required.
  - intros fuel r. unfold ValueValidator_iter_errors.
    cbn [SchemaValidator_iter_errors].
    unfold Docs.allOf_default_schema, Docs.member_with_default.
    cbn -[wrap_error].
    destruct (engine r (JObj [("required", JArr [JStr "a"]); ("default", JInt 1)])
                (JInt 1)) as [vs [[]| |]];
      unfold wraps_errors, from_engine; cbn;
      rewrite ?app_nil_r, ?map_map; reflexivity.
  - intros fuel r. reflexivity.
Qed.

(** With an engine that rejects every value, the member's default is
    reported, its uncovered [required] is not, and the schema's own is. *)
Lemma schema_allOf_members_not_required_witness :
  SchemaValidator_iter_errors Local.resolve Local.one_violation 2
    (new_RefResolver "" JNull) Docs.allOf_checked_schema true =
  ([OpenAPIValidationError (mkViolation [] "value does not conform");
    ExtraParametersError [JStr "b"]],
   Returns tt).
Proof.
  apply (proj1 (proj1 (schema_allOf_members_not_required Local.resolve
                         Local.one_violation)
                  1 (new_RefResolver "" JNull) Docs.allOf_checked_schema
                  [("allOf", JArr [Docs.member_with_default;
                                   JObj [("properties", JObj [("a", JObj [])])]]);
                   ("required", JArr [JStr "b"])]
                  [Docs.member_with_default;
                   JObj [("properties", JObj [("a", JObj [])])]]
                  true eq_refl eq_refl)).
  - repeat constructor.
  - reflexivity.
Defined.

Lemma extra_properties_of_inv (m : list (string * JSON)) (extra : list JSON) :
  extra_properties_of m = Returns extra ->
  exists required,
    py_iter (get m "required" (JArr [])) = Returns required /\
    forallb hashable required = true /\
    exists properties,
      get m "properties" (JObj []) = JObj properties /\
      extra = set_diff (dedup required) (dedup (map JStr (keys properties))).
Proof.
  unfold extra_properties_of, py_keys.
  destruct (get m "properties" (JObj [])) as [| | | | |properties]; simpl;
    try discriminate.
  destruct (py_iter (get m "required" (JArr []))) as [required| |]; simpl;
    try discriminate.
  unfold py_set at 1. destruct (forallb hashable required) eqn:Hh; simpl;
    try discriminate.
  unfold py_set. destruct (forallb hashable (map JStr (keys properties))); simpl;
    try discriminate.
  intros [= <-]. exists required. repeat split; try assumption.
  exists properties. split; reflexivity.
Qed.

Lemma map_JStr_hashable (l : list string) : forallb hashable (map JStr l) = true.
Proof. induction l; simpl; [reflexivity | assumption]. Qed.

Lemma py_in_map_JStr (s : string) (l : list string) :
  py_in (JStr s) (map JStr l) = str_in s l.
Proof.
  unfold py_in, str_in. induction l as [|x l IH]; [reflexivity|].
  cbn [map existsb]. rewrite IH. reflexivity.
Qed.

(** C6: once the [allOf] members of a dereferenced schema object have been
    validated, one [ExtraParametersError] is emitted when the difference
    of [required] and the keys of [properties] is not empty and
    [require_properties] is true, and none otherwise; the error lists the
    difference: the members of [required] that are not keys of
    [properties].  For [{"required": ["a","b"], "properties": {"a": {}}}]
    the stream is that one error, listing ["b"]. *)
Theorem schema_extra_properties
    (resolve : RefResolver -> JSON -> Outcome (string * JSON))
    (engine : RefResolver -> JSON -> JSON -> list Violation * Outcome unit) :
  (forall fuel r schema m rp extra,
      dereference resolve (S fuel) r schema = Returns (JObj m) ->
      outcome (iter_allOf_errors (SchemaValidator_iter_errors resolve engine fuel r) m)
        = Returns tt ->
      extra_properties_of m = Returns extra ->
      of_kind ExtraParameters
        (yields (SchemaValidator_iter_errors resolve engine (S fuel) r schema rp)) =
        (if nonempty extra && rp then [ExtraParametersError extra] else []) /\
      exists required properties,
        py_iter (get m "required" (JArr [])) = Returns required /\
        get m "properties" (JObj []) = JObj properties /\
        (forall x, hashable x = true ->
           py_in x extra = py_in x required && negb (py_in x (map JStr (keys properties)))) /\
        (forall s, py_in (JStr s) extra = py_in (JStr s) required && negb (str_in s (keys properties)))) /\
  (forall fuel r,
      SchemaValidator_iter_errors resolve engine (S fuel) r Docs.required_schema true
      = ([ExtraParametersError [JStr "b"]], Returns tt)).
Proof.
  split.
  - intros fuel r schema m rp extra Hd Ha He. split.
    + assert (Hr : outcome (iter_required_errors m rp) = Returns tt).
      { rewrite (iter_required_errors_returns m rp extra He).
        destruct (nonempty extra && rp); reflexivity. }
      destruct (SchemaValidator_steps resolve engine fuel r schema m rp Hd Ha Hr)
        as [-> _].
      rewrite !of_kind_app, iter_allOf_errors_no_extra, iter_default_errors_no_extra.
      rewrite app_nil_r. simpl.
      rewrite (iter_required_errors_returns m rp extra He).
      destruct (nonempty extra && rp); reflexivity.
    + destruct (extra_properties_of_inv m extra He)
        as (required & Hi & Hh & properties & Hp & ->).
      exists required, properties. split; [exact Hi|]. split; [exact Hp|].
      assert (G : forall x, hashable x = true ->
                py_in x (set_diff (dedup required) (dedup (map JStr (keys properties))))
                = py_in x required && negb (py_in x (map JStr (keys properties)))).
      { intros x Hx.
        rewrite py_in_set_diff; try assumption;
          try (apply dedup_hashable; try assumption; apply map_JStr_hashable).
        rewrite !py_in_dedup; try assumption; try apply map_JStr_hashable.
        reflexivity. }
      split; [exact G|]. intros s. rewrite (G (JStr s) eq_refl).
      rewrite py_in_map_JStr. reflexivity.
  - intros fuel r. reflexivity.
Qed.

Lemma schema_extra_properties_witness :
  of_kind ExtraParameters
    (yields (SchemaValidator_iter_errors Local.resolve Local.no_value_violations 1
               (new_RefResolver "" JNull) Docs.required_schema true)) =
  [ExtraParametersError [JStr "b"]].
Proof.
  apply (proj1 (schema_extra_properties Local.resolve Local.no_value_violations)
           0 (new_RefResolver "" JNull) Docs.required_schema
           [("required", JArr [JStr "a"; JStr "b"]);
            ("properties", JObj [("a", JObj [])])]
           true [JStr "b"]); reflexivity.
Defined.

Lemma skip_default_iff (m : list (string * JSON)) (default : JSON) :
  is_none default && is_true (get m "nullable" (JBool false)) = true <->
  default = JNull /\ lookup "nullable" m = Some (JBool true).
Proof.
  unfold get. split.
  - intros H. apply andb_true_iff in H as [Hd Hn]. split.
    + destruct default; try discriminate. reflexivity.
    + destruct (lookup "nullable" m) as [[| [|] | | | |]|]; try discriminate.
      reflexivity.
  - intros [-> ->]. reflexivity.
Qed.

(** C8: for a dereferenced schema object that declares a default, once the
    [allOf] and [required] steps have returned, the rest of the stream and
    the way the validation ends are those of the Value Validator on
    (schema, default), its errors passed on unchanged; except when the
    default is null and [nullable] is given as [true], and only then: in
    that case nothing follows and the validation returns. *)
Theorem schema_default_validated
    (resolve : RefResolver -> JSON -> Outcome (string * JSON))
    (engine : RefResolver -> JSON -> JSON -> list Violation * Outcome unit)
    (fuel : nat) (r : RefResolver) (schema : JSON) (m : list (string * JSON))
    (rp : bool) (default : JSON) :
  dereference resolve (S fuel) r schema = Returns (JObj m) ->
  outcome (iter_allOf_errors (SchemaValidator_iter_errors resolve engine fuel r) m)
    = Returns tt ->
  outcome (iter_required_errors m rp) = Returns tt ->
  lookup "default" m = Some default ->
  let validation := SchemaValidator_iter_errors resolve engine (S fuel) r schema rp in
  let before :=
    yields (iter_allOf_errors (SchemaValidator_iter_errors resolve engine fuel r) m)
    ++ yields (iter_required_errors m rp) in
  let value_errors := ValueValidator_iter_errors engine r (JObj m) default in
  (default = JNull /\ lookup "nullable" m = Some (JBool true) ->
     yields validation = before /\ outcome validation = Returns tt) /\
  (~ (default = JNull /\ lookup "nullable" m = Some (JBool true)) ->
     yields validation = before ++ yields value_errors /\
     outcome validation = outcome value_errors).
Proof.
  intros Hd Ha Hr Hdef validation before value_errors.
  destruct (SchemaValidator_steps resolve engine fuel r schema m rp Hd Ha Hr)
    as [Hy Ho].
  subst validation before value_errors. rewrite Hy, Ho, app_assoc.
  assert (D : iter_default_errors engine r m =
              if is_none default && is_true (get m "nullable" (JBool false))
              then ret tt
              else ValueValidator_iter_errors engine r (JObj m) default).
  { unfold iter_default_errors, has_key.
    replace (get m "default" JNull) with default by (unfold get; rewrite Hdef; reflexivity).
    rewrite Hdef, <- negb_andb.
    destruct (is_none default && is_true (get m "nullable" (JBool false)));
      reflexivity. }
  rewrite D.
  destruct (is_none default && is_true (get m "nullable" (JBool false))) eqn:E.
  - split.
    + intros _. split; [apply app_nil_r | reflexivity].
    + intros H. exfalso. apply H. apply skip_default_iff. exact E.
  - split.
    + intros H. apply skip_default_iff in H. congruence.
    + intros _. split; reflexivity.
Qed.

(** The engine would reject the null default of both schemas; it is asked
    only about the schema that is not nullable. *)
Lemma schema_default_validated_witness :
  let r := new_RefResolver "" JNull in
  SchemaValidator_iter_errors Local.resolve Local.one_violation 1 r
    Docs.nullable_schema true = ([], Returns tt) /\
  SchemaValidator_iter_errors Local.resolve Local.one_violation 1 r
    Docs.not_nullable_schema true =
    ValueValidator_iter_errors Local.one_violation r Docs.not_nullable_schema JNull.
Proof.
  split.
  - destruct (schema_default_validated Local.resolve Local.one_violation 0
                (new_RefResolver "" JNull) Docs.nullable_schema
                [("type", JStr "string"); ("nullable", JBool true); ("default", JNull)]
                true JNull eq_refl eq_refl eq_refl eq_refl) as [H _].
    destruct (H (conj eq_refl eq_refl)) as [Hy Ho].
    apply injective_projections; [exact Hy | exact Ho].
  - destruct (schema_default_validated Local.resolve Local.one_violation 0
                (new_RefResolver "" JNull) Docs.not_nullable_schema
                [("type", JStr "string"); ("default", JNull)]
                true JNull eq_refl eq_refl eq_refl eq_refl) as [_ H].
    assert (N : ~ (JNull = JNull /\
                   lookup "nullable" [("type", JStr "string"); ("default", JNull)]
                   = Some (JBool true))).
    { intros [_ C]. discriminate C. }
    destruct (H N) as [Hy Ho].
    apply injective_projections; [exact Hy | exact Ho].
Defined.

(** ** SpecValidator.validate *)

(** C9: [validate] raises the first error of the stream of [iter_errors]
    when there is one, and never an error that is not the first of the
    stream; it raises no error exactly when the stream is empty, and when
    [iter_errors] moreover runs to its end, [validate] returns. *)
Theorem validate_raises_first_error
    (resolve : RefResolver -> JSON -> Outcome (string * JSON))
    (whole : RefResolver -> JSON -> list Violation * Outcome unit)
    (engine : RefResolver -> JSON -> JSON -> list Violation * Outcome unit)
    (parse : string -> Outcome (list ParseItem))
    (fuel : nat) (spec : JSON) (spec_url : string) :
  let errors := SpecValidator_iter_errors resolve whole engine parse fuel spec spec_url in
  let verdict := SpecValidator_validate resolve whole engine parse fuel spec spec_url in
  (forall err rest, yields errors = err :: rest -> verdict = RaisesError err) /\
  (forall err, verdict = RaisesError err -> exists rest, yields errors = err :: rest) /\
  ((forall err, verdict <> RaisesError err) <-> yields errors = []) /\
  (outcome errors = Returns tt -> (verdict = Passes <-> yields errors = [])).
Proof.
  intros errors verdict. subst verdict. unfold SpecValidator_validate.
  fold errors. destruct (yields errors) as [|e l] eqn:E.
  - split; [intros err rest H; discriminate H|].
    split; [intros err H; destruct (outcome errors); discriminate H|].
    split.
    + split; [reflexivity|]. intros _ err H. destruct (outcome errors); discriminate H.
    + intros ->. split; reflexivity.
  - split; [intros err rest [= -> ->]; reflexivity|].
    split; [intros err [= ->]; exists l; reflexivity|].
    split.
    + split; [|intros H; discriminate H]. intros H. exfalso. apply (H e). reflexivity.
    + intros _. split; intros H; discriminate H.
Qed.

Lemma validate_raises_first_error_witness :
  let errors :=
    SpecValidator_iter_errors Local.resolve Local.no_violations
      Local.no_value_violations Local.parse 1 Docs.unresolved_spec "" in
  yields errors = [UnresolvableParameterError "id" "get" "/items/{id}"] /\
  SpecValidator_validate Local.resolve Local.no_violations
    Local.no_value_violations Local.parse 1 Docs.unresolved_spec ""
  = RaisesError (UnresolvableParameterError "id" "get" "/items/{id}").
Proof.
  split; [reflexivity|].
  apply (proj1 (validate_raises_first_error Local.resolve Local.no_violations
                  Local.no_value_violations Local.parse 1 Docs.unresolved_spec "")
           (UnresolvableParameterError "id" "get" "/items/{id}") []).
  reflexivity.
Defined.

(** ** ParametersValidator *)

Ltac kinds :=
  repeat first
    [ apply kinds_within_nil
    | apply kinds_within_bind; [|intros ? _]
    | match goal with
      | |- kinds_within _ (yields (if ?b then _ else _)) => destruct b
      | |- kinds_within _ (yields (wraps_errors _)) =>
          rewrite yields_wraps_errors; apply kinds_within_wrap
      end ].

Lemma key_eq_refl (k : JSON * JSON) :
  hashable (fst k) && hashable (snd k) = true -> key_eq k k = true.
Proof.
  intros H. apply andb_true_iff in H as [H1 H2]. unfold key_eq.
  rewrite !py_eq_refl by assumption. reflexivity.
Qed.

Lemma key_eq_sym (a b : JSON * JSON) :
  hashable (fst a) && hashable (snd a) = true ->
  hashable (fst b) && hashable (snd b) = true ->
  key_eq a b = key_eq b a.
Proof.
  intros Ha Hb. apply andb_true_iff in Ha as [A1 A2].
  apply andb_true_iff in Hb as [B1 B2]. unfold key_eq.
  rewrite (py_eq_sym (fst a) (fst b)), (py_eq_sym (snd a) (snd b)) by assumption.
  reflexivity.
Qed.

Lemma key_eq_trans (a b c : JSON * JSON) :
  hashable (fst a) && hashable (snd a) = true ->
  hashable (fst b) && hashable (snd b) = true ->
  hashable (fst c) && hashable (snd c) = true ->
  key_eq a b = true -> key_eq b c = true -> key_eq a c = true.
Proof.
  intros Ha Hb Hc. apply andb_true_iff in Ha as [A1 A2].
  apply andb_true_iff in Hb as [B1 B2]. apply andb_true_iff in Hc as [C1 C2].
  unfold key_eq. intros Hab Hbc.
  apply andb_true_iff in Hab as [X1 X2]. apply andb_true_iff in Hbc as [Y1 Y2].
  rewrite (py_eq_trans (fst a) (fst b) (fst c)),
          (py_eq_trans (snd a) (snd b) (snd c)) by assumption.
  reflexivity.
Qed.

Lemma key_in_app (k : JSON * JSON) (l1 l2 : list (JSON * JSON)) :
  key_in k (l1 ++ l2) = key_in k l1 || key_in k l2.
Proof. unfold key_in. apply existsb_app. Qed.

Lemma key_in_eq (a b : JSON * JSON) (l : list (JSON * JSON)) :
  hashable (fst a) && hashable (snd a) = true ->
  hashable (fst b) && hashable (snd b) = true ->
  keys_hashable l -> key_eq a b = true -> key_in b l = true -> key_in a l = true.
Proof.
  intros Ha Hb Hl Hab. unfold key_in. rewrite !existsb_exists.
  intros (c & Hc & Hbc). exists c. split; [exact Hc|].
  apply (key_eq_trans a b c); try assumption.
  unfold keys_hashable in Hl. rewrite Forall_forall in Hl. apply Hl. exact Hc.
Qed.

(** Adding to the set [seen] and appending to the list of the pairs met
    so far keep the same members. *)
Lemma key_in_seen_add (k k' : JSON * JSON) (seen earlier : list (JSON * JSON)) :
  hashable (fst k) && hashable (snd k) = true ->
  hashable (fst k') && hashable (snd k') = true ->
  keys_hashable seen ->
  key_in k seen = key_in k earlier ->
  key_in k' seen = key_in k' earlier ->
  key_in k (seen_add k' seen) = key_in k (earlier ++ [k']).
Proof.
  intros Hk Hk' Hs E E'. rewrite key_in_app. unfold seen_add.
  destruct (key_in k' seen) eqn:S'.
  - rewrite E. simpl. rewrite orb_false_r.
    destruct (key_eq k k') eqn:Q; [|symmetry; apply orb_false_r].
    rewrite orb_true_r, <- E. apply (key_in_eq k k' seen); assumption.
  - rewrite key_in_app, E. reflexivity.
Qed.

Lemma keys_hashable_seen_add (k : JSON * JSON) (seen : list (JSON * JSON)) :
  hashable (fst k) && hashable (snd k) = true ->
  keys_hashable seen -> keys_hashable (seen_add k seen).
Proof.
  intros Hk Hs. unfold seen_add. destruct (key_in k seen); [exact Hs|].
  apply Forall_app. split; [exact Hs|]. constructor; [exact Hk | constructor].
Qed.

Section ParametersFacts.

Variable resolve : RefResolver -> JSON -> Outcome (string * JSON).
Variable engine : RefResolver -> JSON -> JSON -> list Violation * Outcome unit.

Lemma ParameterValidator_kinds (fuel : nat) (r : RefResolver) (parameter : JSON) :
  kinds_within [SchemaViolation; ExtraParameters]
    (yields (ParameterValidator_iter_errors resolve engine fuel r parameter)).
Proof.
  unfold ParameterValidator_iter_errors. kinds.
  - apply (SchemaValidator_kinds resolve engine fuel r _ true).
  - apply kinds_within_weaken with (ks := [SchemaViolation]).
    + intros k [<-|[]]. left. reflexivity.
    + apply ValueValidator_kinds.
Qed.

Lemma ParameterValidator_no_duplicates (fuel : nat) (r : RefResolver) (p : JSON) :
  of_kind ParameterDuplicate
    (yields (ParameterValidator_iter_errors resolve engine fuel r p)) = [].
Proof.
  apply of_kind_outside with (ks := [SchemaViolation; ExtraParameters]).
  - apply ParameterValidator_kinds.
  - simpl. intros [H|[H|[]]]; discriminate H.
Qed.

End ParametersFacts.

Lemma bind_returns_full {A B} (g : Gen A) (f : A -> Gen B) (b : B) :
  outcome (bind g f) = Returns b ->
  exists a, outcome g = Returns a /\ outcome (f a) = Returns b /\
            yields (bind g f) = yields g ++ yields (f a).
Proof.
  intros H. destruct (bind_returns_inv g f b H) as (a & Ha & Hb).
  exists a. split; [exact Ha|]. split; [exact Hb|]. apply yields_bind. exact Ha.
Qed.

Section ParametersLoop.

Variable resolve : RefResolver -> JSON -> Outcome (string * JSON).
Variable engine : RefResolver -> JSON -> JSON -> list Violation * Outcome unit.
Variable fuel : nat.
Variable r : RefResolver.

Local Abbreviation loop := (iter_parameters_from resolve engine fuel r).

(** The loop over the parameters, started with a set [seen] that has the
    members of the pairs [earlier] met so far. *)
Lemma iter_parameters_from_duplicates :
  forall (parameters : list JSON) (seen earlier : list (JSON * JSON)),
    keys_hashable seen ->
    (forall k, hashable (fst k) && hashable (snd k) = true ->
               key_in k seen = key_in k earlier) ->
    outcome (loop parameters seen) = Returns tt ->
    exists keys,
      Forall2 (fun p k => parameter_key resolve fuel r p = Returns k) parameters keys /\
      of_kind ParameterDuplicate (yields (loop parameters seen)) =
        map ParameterDuplicateError (repeated_names earlier keys).
Proof.
  induction parameters as [|p rest IH]; intros seen earlier Hs Hinv Hout.
  - exists []. split; [constructor | reflexivity].
  - cbn [iter_parameters_from] in Hout |- *.
    destruct (bind_returns_full _ _ _ Hout) as (pd & Hd & Hout1 & ->).
    destruct (bind_returns_full _ _ _ Hout1) as (u & _ & Hout2 & ->).
    destruct (bind_returns_full _ _ _ Hout2) as (name & Hn & Hout3 & ->).
    destruct (bind_returns_full _ _ _ Hout3) as (location & Hl & Hout4 & ->).
    destruct (bind_returns_full _ _ _ Hout4) as (u' & Hh & Hout5 & ->).
    destruct (bind_returns_full _ _ _ Hout5) as (u'' & _ & Hout6 & ->).
    unfold outcome, lift in Hd, Hn, Hl. simpl in Hd, Hn, Hl.
    assert (Hk : hashable (fst (name, location)) && hashable (snd (name, location)) = true).
    { simpl. destruct (hashable name && hashable location); [reflexivity|].
      discriminate Hh. }
    destruct (IH (seen_add (name, location) seen) (earlier ++ [(name, location)]))
      as (keys & Hkeys & Hdup).
    + apply keys_hashable_seen_add; assumption.
    + intros k Hk'. apply key_in_seen_add; try assumption.
      * apply Hinv. exact Hk'.
      * apply Hinv. exact Hk.
    + exact Hout6.
    + exists ((name, location) :: keys). split.
      * constructor; [|exact Hkeys].
        unfold parameter_key. rewrite Hd. simpl. rewrite Hn. simpl. rewrite Hl.
        reflexivity.
      * rewrite !of_kind_app, Hdup, ParameterValidator_no_duplicates.
        simpl in Hk. rewrite Hk. cbn [repeated_names map app fst].
        rewrite <- (Hinv (name, location) Hk), map_app.
        destruct (key_in (name, location) seen); reflexivity.
Qed.

End ParametersLoop.

(** C7: when the validation of a parameter list runs to its end, the
    [ParameterDuplicateError]s it emits are, in input order, one for each
    occurrence of a [(name, location)] pair that an earlier parameter of
    the list already has, naming the parameter; two parameters named
    ["id"] in ["path"] give exactly one, referencing ["id"]. *)
Theorem parameters_duplicates_reported
    (resolve : RefResolver -> JSON -> Outcome (string * JSON))
    (engine : RefResolver -> JSON -> JSON -> list Violation * Outcome unit) :
  (forall fuel r parameters,
      outcome (ParametersValidator_iter_errors resolve engine fuel r (JArr parameters))
        = Returns tt ->
      exists keys,
        Forall2 (fun p k => parameter_key resolve fuel r p = Returns k) parameters keys /\
        of_kind ParameterDuplicate
          (yields (ParametersValidator_iter_errors resolve engine fuel r (JArr parameters)))
        = map ParameterDuplicateError (repeated_names [] keys)) /\
  (forall fuel r,
      ParametersValidator_iter_errors resolve engine fuel r Docs.two_id_parameters
      = ([ParameterDuplicateError (JStr "id")], Returns tt)).
Proof.
  split.
  - intros fuel r parameters H.
    unfold ParametersValidator_iter_errors in *.
    rewrite outcome_wraps_errors in H. simpl py_iter in *.
    rewrite bind_lift_returns in *.
    destruct (iter_parameters_from_duplicates resolve engine fuel r parameters [] [])
      as (keys & Hkeys & Hdup).
    + constructor.
    + intros k _. reflexivity.
    + exact H.
    + exists keys. split; [exact Hkeys|].
      rewrite of_kind_yields_wraps by discriminate. exact Hdup.
  - intros fuel r. destruct fuel; reflexivity.
Qed.

Lemma parameters_duplicates_reported_witness :
  exists keys,
    Forall2 (fun p k => parameter_key Local.resolve 1 (new_RefResolver "" JNull) p
                        = Returns k)
      [Docs.id_in_path; Docs.id_in_path] keys /\
    of_kind ParameterDuplicate
      (yields (ParametersValidator_iter_errors Local.resolve Local.no_value_violations 1
                 (new_RefResolver "" JNull) Docs.two_id_parameters))
    = map ParameterDuplicateError (repeated_names [] keys).
Proof.
  apply (proj1 (parameters_duplicates_reported Local.resolve Local.no_value_violations)
           1 (new_RefResolver "" JNull) [Docs.id_in_path; Docs.id_in_path]).
  reflexivity.
Defined.

(** ** OperationValidator *)

Section OperationFacts.

Variable resolve : RefResolver -> JSON -> Outcome (string * JSON).
Variable engine : RefResolver -> JSON -> JSON -> list Violation * Outcome unit.
Variable parse : string -> Outcome (list ParseItem).

Local Abbreviation OV := (OperationValidator_iter_errors resolve engine parse).

Lemma iter_parameters_from_kinds (fuel : nat) (r : RefResolver) :
  forall (parameters : list JSON) (seen : list (JSON * JSON)),
    kinds_within [SchemaViolation; ExtraParameters; ParameterDuplicate]
      (yields (iter_parameters_from resolve engine fuel r parameters seen)).
Proof.
  induction parameters as [|p rest IH]; intros seen.
  - apply kinds_within_nil.
  - cbn [iter_parameters_from]. kinds; try apply IH.
    + apply kinds_within_weaken with (ks := [SchemaViolation; ExtraParameters]).
      * intros k [<-|[<-|[]]]; simpl; auto.
      * apply ParameterValidator_kinds.
    + constructor; [|constructor]. simpl. auto.
Qed.

Lemma ParametersValidator_kinds (fuel : nat) (r : RefResolver) (parameters : JSON) :
  kinds_within [SchemaViolation; ExtraParameters; ParameterDuplicate]
    (yields (ParametersValidator_iter_errors resolve engine fuel r parameters)).
Proof.
  unfold ParametersValidator_iter_errors. kinds. apply iter_parameters_from_kinds.
Qed.

(** The last loop emits one error for each placeholder outside
    [all_params], in the order of the placeholders. *)
Lemma for_each_check_path_param (all_params : list JSON) (name url : string)
    (paths : list string) :
  for_each paths (check_path_param all_params name url) =
  (map (fun path => UnresolvableParameterError path name url)
       (filter (fun path => negb (py_in (JStr path) all_params)) paths),
   Returns tt).
Proof.
  induction paths as [|p paths IH]; [reflexivity|].
  cbn [for_each filter]. rewrite IH. unfold check_path_param.
  destruct (negb (py_in (JStr p) all_params)); reflexivity.
Qed.

Lemma iter_operation_parameters_kinds (fuel : nat) (r : RefResolver)
    (url name : string) (m : list (string * JSON)) (path_parameters : JSON) :
  kinds_within
    [SchemaViolation; ExtraParameters; ParameterDuplicate; UnresolvableParameter]
    (yields (iter_operation_parameters resolve engine parse fuel r url name m
               path_parameters)).
Proof.
  unfold iter_operation_parameters. kinds.
  - apply kinds_within_weaken
      with (ks := [SchemaViolation; ExtraParameters; ParameterDuplicate]).
    + intros k [<-|[<-|[<-|[]]]]; simpl; auto.
    + apply ParametersValidator_kinds.
  - rewrite for_each_check_path_param. unfold yields, kinds_within. simpl.
    apply Forall_map. apply Forall_forall. intros p _. simpl. auto.
Qed.

(** [OperationValidator.iter_errors] on a node that dereferences to a dict. *)
Lemma OperationValidator_unfold (fuel : nat) (r : RefResolver) (url name : string)
    (operation path_parameters : JSON) (seen_ids : list JSON)
    (m : list (string * JSON)) :
  dereference resolve fuel r operation = Returns (JObj m) ->
  OV fuel r url name operation path_parameters seen_ids =
  (wraps_errors (
     (if negb (is_none (get m "operationId" JNull))
         && py_in (get m "operationId" JNull) seen_ids
      then yield (DuplicateOperationIDError (get m "operationId" JNull) name url)
      else ret tt) ;;
     iter_operation_parameters resolve engine parse fuel r url name m
       (if py_truthy path_parameters then path_parameters else JArr [])),
   seen_ids ++ [get m "operationId" JNull]).
Proof.
  intros H.
  unfold OperationValidator_iter_errors, st_wraps_errors, st_bind, st_lift,
    st_seen, st_append.
  cbn [fst snd lift]. rewrite H. cbn [fst snd ret].
  destruct (negb (is_none (get m "operationId" JNull))
            && py_in (get m "operationId" JNull) seen_ids);
    cbn [fst snd yield ret app]; unfold bind; cbn [fst snd app];
    destruct (iter_operation_parameters resolve engine parse fuel r url name m
                (if py_truthy path_parameters then path_parameters else JArr []))
      as [ys o]; reflexivity.
Qed.

End OperationFacts.

Section OperationRegistry.

Variable resolve : RefResolver -> JSON -> Outcome (string * JSON).
Variable engine : RefResolver -> JSON -> JSON -> list Violation * Outcome unit.
Variable parse : string -> Outcome (list ParseItem).

Local Abbreviation OV := (OperationValidator_iter_errors resolve engine parse).

(** What one visit does to the stream of duplicate-id errors and to the
    registry. *)
Lemma OperationValidator_registry (fuel : nat) (r : RefResolver) (url name : string)
    (operation path_parameters : JSON) (seen_ids : list JSON)
    (m : list (string * JSON)) :
  dereference resolve fuel r operation = Returns (JObj m) ->
  of_kind DuplicateOperationID
    (yields (fst (OV fuel r url name operation path_parameters seen_ids))) =
    (if negb (is_none (get m "operationId" JNull))
        && py_in (get m "operationId" JNull) seen_ids
     then [DuplicateOperationIDError (get m "operationId" JNull) name url]
     else []) /\
  snd (OV fuel r url name operation path_parameters seen_ids) =
    seen_ids ++ [get m "operationId" JNull].
Proof.
  intros H. rewrite (OperationValidator_unfold _ _ _ _ _ _ _ _ _ _ _ H).
  split; [|reflexivity]. cbn [fst].
  rewrite of_kind_yields_wraps by discriminate.
  assert (N : of_kind DuplicateOperationID
                (yields (iter_operation_parameters resolve engine parse fuel r url
                           name m
                           (if py_truthy path_parameters then path_parameters
                            else JArr []))) = []).
  { apply of_kind_outside
      with (ks := [SchemaViolation; ExtraParameters; ParameterDuplicate;
                   UnresolvableParameter]).
    - apply iter_operation_parameters_kinds.
    - simpl. intros [C|[C|[C|[C|[]]]]]; discriminate C. }
  destruct (negb (is_none (get m "operationId" JNull))
            && py_in (get m "operationId" JNull) seen_ids).
  - rewrite (yields_bind
               (yield (DuplicateOperationIDError (get m "operationId" JNull) name url))
               _ tt eq_refl), of_kind_app, N. reflexivity.
  - rewrite bind_ret. exact N.
Qed.

End OperationRegistry.

Lemma py_in_app (x : JSON) (l1 l2 : list JSON) :
  py_in x (l1 ++ l2) = py_in x l1 || py_in x l2.
Proof. unfold py_in. apply existsb_app. Qed.

(** C3: a visited operation, dereferenced to an object, gives one
    [DuplicateOperationIDError] when its [operationId] is not [None] and
    is in the registry, and none otherwise; the id, [None] included, is
    appended to the registry.  Hence of two operations visited one after
    the other, two without [operationId] give no such error, and the
    second of two with the same id gives exactly one. *)
Theorem operation_id_duplicates
    (resolve : RefResolver -> JSON -> Outcome (string * JSON))
    (engine : RefResolver -> JSON -> JSON -> list Violation * Outcome unit)
    (parse : string -> Outcome (list ParseItem))
    (fuel : nat) (r : RefResolver) :
  let OV := OperationValidator_iter_errors resolve engine parse fuel r in
  let duplicates (run : Gen unit * list JSON) :=
    of_kind DuplicateOperationID (yields (fst run)) in
  (forall url name operation path_parameters seen_ids m,
      dereference resolve fuel r operation = Returns (JObj m) ->
      let operation_id := get m "operationId" JNull in
      let run := OV url name operation path_parameters seen_ids in
      duplicates run =
        (if negb (is_none operation_id) && py_in operation_id seen_ids
         then [DuplicateOperationIDError operation_id name url] else []) /\
      snd run = seen_ids ++ [operation_id]) /\
  (forall url1 name1 operation1 parameters1 url2 name2 operation2 parameters2
          seen_ids m1 m2,
      dereference resolve fuel r operation1 = Returns (JObj m1) ->
      dereference resolve fuel r operation2 = Returns (JObj m2) ->
      let run1 := OV url1 name1 operation1 parameters1 seen_ids in
      let run2 := OV url2 name2 operation2 parameters2 (snd run1) in
      (lookup "operationId" m1 = None -> lookup "operationId" m2 = None ->
       duplicates run1 = [] /\ duplicates run2 = [] /\
       snd run2 = seen_ids ++ [JNull; JNull]) /\
      (forall operation_id,
          lookup "operationId" m1 = Some operation_id ->
          lookup "operationId" m2 = Some operation_id ->
          operation_id <> JNull -> hashable operation_id = true ->
          duplicates run2 = [DuplicateOperationIDError operation_id name2 url2])).
Proof.
  intros OV duplicates. subst OV duplicates. cbv beta. split.
  - intros url name operation pp seen_ids m H. cbv zeta.
    apply OperationValidator_registry. exact H.
  - intros url1 name1 op1 pp1 url2 name2 op2 pp2 seen_ids m1 m2 H1 H2. cbv zeta.
    destruct (OperationValidator_registry resolve engine parse fuel r url1 name1
                op1 pp1 seen_ids m1 H1) as [D1 S1].
    rewrite S1.
    destruct (OperationValidator_registry resolve engine parse fuel r url2 name2
                op2 pp2 (seen_ids ++ [get m1 "operationId" JNull]) m2 H2)
      as [D2 S2].
    rewrite D1, D2, S2. split.
    + intros L1 L2. unfold get. rewrite L1, L2. simpl.
      split; [reflexivity|]. split; [reflexivity|].
      rewrite <- app_assoc. reflexivity.
    + intros operation_id L1 L2 Hn Hh. unfold get. rewrite L1, L2.
      rewrite py_in_app.
      replace (py_in operation_id [operation_id]) with true
        by (unfold py_in; simpl; rewrite py_eq_refl by assumption; reflexivity).
      rewrite orb_true_r.
      destruct operation_id; try reflexivity. exfalso. apply Hn. reflexivity.
Qed.

(** The registry is one for the whole [paths] traversal of a document. *)
Example paths_share_registry :
  SpecValidator_iter_errors Local.resolve Local.no_violations
    Local.no_value_violations Local.parse 1 Docs.same_id_spec ""
  = ([DuplicateOperationIDError (JStr "listItems") "get" "/b"], Returns tt) /\
  SpecValidator_iter_errors Local.resolve Local.no_violations
    Local.no_value_violations Local.parse 1 Docs.no_id_spec ""
  = ([], Returns tt).
Proof. split; reflexivity. Qed.

Lemma operation_id_duplicates_witness :
  let r := new_RefResolver "" JNull in
  let list_items := JObj [("operationId", JStr "listItems")] in
  let OV := OperationValidator_iter_errors Local.resolve Local.no_value_violations
              Local.parse 1 r in
  let run1 := OV "/a" "get" list_items (JArr []) [] in
  let run2 := OV "/b" "get" list_items (JArr []) (snd run1) in
  of_kind DuplicateOperationID (yields (fst run2)) =
  [DuplicateOperationIDError (JStr "listItems") "get" "/b"].
Proof.
  apply (proj2 (proj2 (operation_id_duplicates Local.resolve Local.no_value_violations
                         Local.parse 1 (new_RefResolver "" JNull))
                  "/a" "get" (JObj [("operationId", JStr "listItems")]) (JArr [])
                  "/b" "get" (JObj [("operationId", JStr "listItems")]) (JArr [])
                  [] [("operationId", JStr "listItems")]
                  [("operationId", JStr "listItems")] eq_refl eq_refl)
           (JStr "listItems")); try reflexivity.
  discriminate.
Defined.

Section OperationPathParameters.

Variable resolve : RefResolver -> JSON -> Outcome (string * JSON).
Variable engine : RefResolver -> JSON -> JSON -> list Violation * Outcome unit.
Variable parse : string -> Outcome (list ParseItem).


Lemma iter_operation_parameters_unresolvable (fuel : nat) (r : RefResolver)
    (url name : string) (m : list (string * JSON)) (path_parameters : JSON) :
  outcome (iter_operation_parameters resolve engine parse fuel r url name m
             path_parameters) = Returns tt ->
  exists path_names names placeholders,
    OperationValidator_get_path_param_names resolve fuel r path_parameters
      = Returns path_names /\
    OperationValidator_get_path_param_names resolve fuel r (get m "parameters" (JArr []))
      = Returns names /\
    OperationValidator_get_path_params_from_url parse url = Returns placeholders /\
    of_kind UnresolvableParameter
      (yields (iter_operation_parameters resolve engine parse fuel r url name m
                 path_parameters)) =
    map (fun path => UnresolvableParameterError path name url)
        (filter (fun path => negb (py_in (JStr path) (path_names ++ names)))
                placeholders).
Proof.
  unfold iter_operation_parameters. intros H.
  destruct (bind_returns_full _ _ _ H) as (u & _ & H1 & ->).
  destruct (bind_returns_full _ _ _ H1) as (path_names & Hp & H2 & ->).
  destruct (bind_returns_full _ _ _ H2) as (names & Hn & H3 & ->).
  destruct (bind_returns_full _ _ _ H3) as (all_params & Ha & H4 & ->).
  destruct (bind_returns_full _ _ _ H4) as (placeholders & Hu & _ & ->).
  unfold outcome, lift in Hp, Hn, Ha, Hu. simpl in Hp, Hn, Ha, Hu.
  exists path_names, names, placeholders.
  split; [exact Hp|]. split; [exact Hn|]. split; [exact Hu|].
  rewrite !of_kind_app.
  rewrite (of_kind_outside UnresolvableParameter
             [SchemaViolation; ExtraParameters; ParameterDuplicate]).
  - simpl. rewrite for_each_check_path_param. unfold yields. cbn [fst].
    unfold py_set in Ha.
    destruct (forallb hashable (path_names ++ names)) eqn:Hh; [|discriminate].
    injection Ha as <-.
    assert (E : forall l : list string,
              of_kind UnresolvableParameter
                (map (fun path => UnresolvableParameterError path name url) l)
              = map (fun path => UnresolvableParameterError path name url) l).
    { induction l as [|x l IHl]; [reflexivity|]. simpl. f_equal. exact IHl. }
    rewrite E. f_equal. apply filter_ext. intros p.
    rewrite py_in_dedup; [reflexivity | reflexivity | exact Hh].
  - apply ParametersValidator_kinds.
  - simpl. intros [C|[C|[C|[]]]]; discriminate C.
Qed.

End OperationPathParameters.



(** ** PathItemValidator *)

(** On a path item that is not a reference node, as [PathValidator]
    passes it, the fields visited are those of the dereferenced node. *)
Lemma PathItemValidator_not_ref
    (resolve : RefResolver -> JSON -> Outcome (string * JSON))
    (engine : RefResolver -> JSON -> JSON -> list Violation * Outcome unit)
    (parse : string -> Outcome (list ParseItem))
    (fuel : nat) (r : RefResolver) (url : string) (path_item : JSON)
    (seen_ids : list JSON) :
  is_ref path_item = false ->
  PathItemValidator_iter_errors resolve engine parse fuel r url path_item seen_ids =
  PathItemValidator_iter_errors_spec resolve engine parse fuel r url path_item seen_ids.
Proof.
  intros H.
  unfold PathItemValidator_iter_errors, PathItemValidator_iter_errors_spec,
    st_wraps_errors, st_bind, st_lift.
  rewrite (dereference_not_ref resolve fuel r path_item H). reflexivity.
Qed.

(** C2: the path item [{"$ref": "#/x"}] stands for [{"get": {}}], whose
    [get] operation leaves the placeholder of ["/items/{id}"] unresolved;
    [PathItemValidator.iter_errors] dereferences the node and then loops
    over the fields of the reference node itself: no operation is
    delegated, no error is emitted and the registry is left as it was,
    where the fields of the dereferenced node give one operation, one
    error and one registry entry. *)
Theorem path_item_reference_not_followed :
  let r := new_RefResolver "" Docs.shared_path_item in
  let path_item := Docs.ref "#/x" in
  dereference Local.resolve 1 r path_item = Returns (JObj [("get", JObj [])]) /\
  PathItemValidator_iter_errors Local.resolve Local.no_value_violations Local.parse
    1 r "/items/{id}" path_item [] = (([], Returns tt), []) /\
  PathItemValidator_iter_errors_spec Local.resolve Local.no_value_violations Local.parse
    1 r "/items/{id}" path_item []
  = (([UnresolvableParameterError "id" "get" "/items/{id}"], Returns tt), [JNull]).
Proof.
  repeat split.
Qed.

(** * Further properties *)

(** ** Dereferencer: finite chains *)

Lemma reaches_not_ref (resolve : RefResolver -> JSON -> Outcome (string * JSON))
    (r : RefResolver) (x v : JSON) :
  reaches resolve r x v -> is_ref x = false -> v = x.
Proof.
  intros H Hx. destruct H as [r x _|r r' x target v Hf _]; [reflexivity|].
  destruct Hf as [Hr _]. congruence.
Qed.

(** X1: [dereference] returns a node exactly when the reference chain from
    the item is finite, and then it returns the node at its end. *)
Theorem dereference_returns_end_of_chain
    (resolve : RefResolver -> JSON -> Outcome (string * JSON))
    (r : RefResolver) (x v : JSON) :
  reaches resolve r x v <-> exists fuel, dereference resolve fuel r x = Returns v.
Proof.
  split.
  - intros H. induction H as [r x Hx|r r' x target v Hf Hreach [fuel IH]].
    + exists 0. apply dereference_not_ref. exact Hx.
    + exists (S fuel). destruct Hf as (Hr & ref & url & Hg & Hres & ->). simpl.
      assert (N : is_none x = false) by (destruct x; try discriminate; reflexivity).
      rewrite N, Hr. simpl. rewrite Hg. simpl. rewrite Hres. simpl.
      destruct (is_ref target) eqn:T; [exact IH|].
      rewrite (reaches_not_ref resolve _ _ _ Hreach T). reflexivity.
  - intros [fuel H]. revert r x H.
    induction fuel as [|fuel IH]; intros r x; simpl.
    + destruct (is_none x || negb (is_ref x)) eqn:E; [|discriminate].
      intros [= <-]. apply reaches_here.
      apply orb_true_iff in E as [E|E];
        [apply is_none_not_ref; exact E | apply negb_true_iff; exact E].
    + destruct (is_none x || negb (is_ref x)) eqn:E.
      * intros [= <-]. apply reaches_here.
        apply orb_true_iff in E as [E|E];
          [apply is_none_not_ref; exact E | apply negb_true_iff; exact E].
      * apply orb_false_iff in E as [_ E]. apply negb_false_iff in E.
        destruct (py_getitem x "$ref") as [ref| |] eqn:Hg; simpl; try discriminate.
        destruct (resolve (in_scope x r) ref) as [[url target]| |] eqn:Hres; simpl;
          try discriminate.
        intros H. apply (reaches_step resolve r (push_scope url r) x target v).
        -- split; [exact E|]. exists ref, url. repeat split; assumption.
        -- destruct (is_ref target) eqn:T.
           ++ apply IH. exact H.
           ++ injection H as <-. apply reaches_here. exact T.
Qed.

Lemma dereference_returns_end_of_chain_witness :
  exists fuel,
    dereference Local.resolve fuel (new_RefResolver "" Docs.chain) (Docs.ref "#/B")
    = Returns (JObj [("type", JStr "object")]).
Proof.
  apply (proj1 (dereference_returns_end_of_chain Local.resolve
                  (new_RefResolver "" Docs.chain) (Docs.ref "#/B")
                  (JObj [("type", JStr "object")]))).
  apply (reaches_step Local.resolve _ (push_scope "#/B" (new_RefResolver "" Docs.chain))
           _ (Docs.ref "#/C")).
  - split; [reflexivity|]. exists (JStr "#/B"), "#/B". repeat split.
  - apply (reaches_step Local.resolve _
             (push_scope "#/C" (push_scope "#/B" (new_RefResolver "" Docs.chain)))
             _ (JObj [("type", JStr "object")])).
    + split; [reflexivity|]. exists (JStr "#/C"), "#/C". repeat split.
    + apply reaches_here. reflexivity.
Defined.

(** X2: a reference that cannot be resolved, anywhere along the chain, makes
    [dereference] raise what the resolver raised: it is never turned into
    a node or swallowed. *)
Theorem dereference_resolution_failure
    (resolve : RefResolver -> JSON -> Outcome (string * JSON))
    (r r' : RefResolver) (x y ref : JSON) (e : Exn) :
  reaches_ref resolve r x r' y ->
  py_getitem y "$ref" = Returns ref ->
  resolve (in_scope y r') ref = Raises e ->
  exists fuel, forall fuel', fuel <= fuel' ->
    dereference resolve fuel' r x = Raises e.
Proof.
  intros H Hg Hres. induction H as [r y Hy|r r1 r2 x t y Hf Ht _ IH].
  - exists 1. intros [|fuel'] Hle; [lia|]. simpl.
    assert (N : is_none y = false) by (destruct y; try discriminate; reflexivity).
    rewrite N, Hy. simpl. rewrite Hg. simpl. rewrite Hres. reflexivity.
  - destruct (IH Hg Hres) as [fuel IHf].
    exists (S fuel). intros [|fuel'] Hle; [lia|].
    destruct Hf as (Hr & ref0 & url & Hg0 & Hres0 & ->). simpl.
    assert (N : is_none x = false) by (destruct x; try discriminate; reflexivity).
    rewrite N, Hr. simpl. rewrite Hg0. simpl. rewrite Hres0. simpl. rewrite Ht.
    apply IHf. lia.
Qed.

Lemma dereference_resolution_failure_witness :
  exists fuel, forall fuel', fuel <= fuel' ->
    dereference Local.resolve fuel' (new_RefResolver "" Docs.dangling) (Docs.ref "#/A")
    = Raises RefResolutionError.
Proof.
  apply (dereference_resolution_failure Local.resolve
           (new_RefResolver "" Docs.dangling)
           (push_scope "#/B" (push_scope "#/A" (new_RefResolver "" Docs.dangling)))
           (Docs.ref "#/A") (Docs.ref "#/missing") (JStr "#/missing")).
  - apply (reaches_ref_step Local.resolve _
             (push_scope "#/A" (new_RefResolver "" Docs.dangling)) _ _
             (Docs.ref "#/B")).
    + split; [reflexivity|]. exists (JStr "#/A"), "#/A". repeat split.
    + reflexivity.
    + apply (reaches_ref_step Local.resolve _
               (push_scope "#/B" (push_scope "#/A" (new_RefResolver "" Docs.dangling)))
               _ _ (Docs.ref "#/missing")).
      * split; [reflexivity|]. exists (JStr "#/B"), "#/B". repeat split.
      * reflexivity.
      * apply reaches_ref_here. reflexivity.
  - reflexivity.
  - reflexivity.
Defined.

(** ** Validators that dereference what was dereferenced *)

Lemma st_bind_lift_returns {A B} (a : A) (f : A -> StGen B) (seen : list JSON) :
  st_bind (st_lift (lift (Returns a))) f seen = f a seen.
Proof.
  unfold st_bind, st_lift, lift. cbn [fst snd app].
  destruct (f a seen) as [[ys o] s]. reflexivity.
Qed.

(** X3: [PathValidator] hands [PathItemValidator] a node that is already
    dereferenced, so the operations validated for a path are those of the
    dereferenced path item, whether the path item is a reference or not. *)
Theorem PathValidator_validates_dereferenced_item
    (resolve : RefResolver -> JSON -> Outcome (string * JSON))
    (engine : RefResolver -> JSON -> JSON -> list Violation * Outcome unit)
    (parse : string -> Outcome (list ParseItem))
    (fuel : nat) (r : RefResolver) (url : string) (path_item : JSON)
    (seen_ids : list JSON) :
  PathValidator_iter_errors resolve engine parse fuel r url path_item seen_ids =
  PathItemValidator_iter_errors_spec resolve engine parse fuel r url path_item seen_ids.
Proof.
  unfold PathValidator_iter_errors.
  destruct (dereference resolve fuel r path_item) as [item| |] eqn:D.
  - pose proof (dereference_returns_not_ref resolve fuel r path_item item D) as N.
    unfold st_wraps_errors at 1. rewrite !st_bind_lift_returns.
    rewrite (PathItemValidator_not_ref resolve engine parse fuel r url item seen_ids N).
    unfold PathItemValidator_iter_errors_spec.
    rewrite D, (dereference_not_ref resolve fuel r item N).
    unfold st_wraps_errors. rewrite !st_bind_lift_returns. cbn [fst snd].
    unfold wraps_errors. cbn [fst snd]. rewrite map_map.
    f_equal. f_equal. apply map_ext. apply wrap_error_idempotent.
  - unfold PathItemValidator_iter_errors_spec. rewrite D. reflexivity.
  - unfold PathItemValidator_iter_errors_spec. rewrite D. reflexivity.
Qed.

Lemma bind_ret_tt (g : Gen unit) : bind g (fun _ => ret tt) = g.
Proof.
  unfold bind, ret. destruct g as [ys [[]| |]]; cbn [fst snd];
    rewrite ?app_nil_r; reflexivity.
Qed.

Lemma wraps_errors_wrapped {A} (g : Gen A) :
  wrapped (yields g) -> wraps_errors g = g.
Proof.
  unfold wrapped, wraps_errors, yields. destruct g as [ys o]. cbn [fst snd].
  intros ->. reflexivity.
Qed.

Section DereferencedTwice.

Variable resolve : RefResolver -> JSON -> Outcome (string * JSON).
Variable engine : RefResolver -> JSON -> JSON -> list Violation * Outcome unit.

(** Validating the dereferenced schema is validating the schema. *)
Lemma SchemaValidator_dereferenced (fuel : nat) (r : RefResolver)
    (schema schema_deref : JSON) (rp : bool) :
  dereference resolve fuel r schema = Returns schema_deref ->
  SchemaValidator_iter_errors resolve engine fuel r schema_deref rp =
  SchemaValidator_iter_errors resolve engine fuel r schema rp.
Proof.
  intros H. destruct fuel as [|fuel]; [reflexivity|].
  cbn [SchemaValidator_iter_errors]. rewrite H.
  rewrite (dereference_not_ref resolve (S fuel) r schema_deref
             (dereference_returns_not_ref resolve _ _ _ _ H)).
  reflexivity.
Qed.

End DereferencedTwice.

(** X4: a parameter object with an embedded [schema] and no [default] is
    validated exactly as that schema is, with [require_properties] true:
    same errors, same ending, also when the schema is a reference. *)
Theorem ParameterValidator_validates_schema
    (resolve : RefResolver -> JSON -> Outcome (string * JSON))
    (engine : RefResolver -> JSON -> JSON -> list Violation * Outcome unit)
    (fuel : nat) (r : RefResolver) (m : list (string * JSON)) (schema : JSON) :
  lookup "schema" m = Some schema ->
  lookup "default" m = None ->
  ParameterValidator_iter_errors resolve engine (S fuel) r (JObj m) =
  SchemaValidator_iter_errors resolve engine (S fuel) r schema true.
Proof.
  intros Hs Hd. unfold ParameterValidator_iter_errors.
  cbn [py_contains py_getitem]. unfold has_key. rewrite Hs, Hd.
  rewrite !bind_lift_returns.
  destruct (dereference resolve (S fuel) r schema) as [sd| |] eqn:D.
  - rewrite bind_lift_returns.
    rewrite (SchemaValidator_dereferenced resolve engine _ _ _ _ true D).
    rewrite bind_ret_tt. apply wraps_errors_wrapped.
    apply SchemaValidator_wrapped.
  - cbn [SchemaValidator_iter_errors]. rewrite D. reflexivity.
  - cbn [SchemaValidator_iter_errors]. rewrite D. reflexivity.
Qed.

Lemma ParameterValidator_validates_schema_witness :
  ParameterValidator_iter_errors Local.resolve Local.no_value_violations 1
    (new_RefResolver "" JNull)
    (JObj [("name", JStr "filter"); ("in", JStr "query");
           ("schema", Docs.required_schema)]) =
  SchemaValidator_iter_errors Local.resolve Local.no_value_violations 1
    (new_RefResolver "" JNull) Docs.required_schema true.
Proof.
  apply (ParameterValidator_validates_schema Local.resolve Local.no_value_violations
           0 (new_RefResolver "" JNull)
           [("name", JStr "filter"); ("in", JStr "query");
            ("schema", Docs.required_schema)] Docs.required_schema);
    reflexivity.
Defined.

(** X5: a parameter object without [schema] validates only its legacy
    [default], against the parameter itself taken as the schema; a null
    default is not validated, whether or not the parameter says
    [nullable]. *)
Theorem ParameterValidator_legacy_default
    (resolve : RefResolver -> JSON -> Outcome (string * JSON))
    (engine : RefResolver -> JSON -> JSON -> list Violation * Outcome unit)
    (fuel : nat) (r : RefResolver) (m : list (string * JSON)) :
  lookup "schema" m = None ->
  ParameterValidator_iter_errors resolve engine fuel r (JObj m) =
  match lookup "default" m with
  | Some JNull | None => ([], Returns tt)
  | Some default => ValueValidator_iter_errors engine r (JObj m) default
  end.
Proof.
  intros Hs. unfold ParameterValidator_iter_errors.
  cbn [py_contains py_getitem]. unfold has_key. rewrite Hs.
  rewrite bind_lift_returns. cbv beta iota. rewrite bind_ret.
  destruct (lookup "default" m) as [d|]; rewrite bind_lift_returns;
    cbv beta iota; [|reflexivity].
  rewrite bind_lift_returns.
  destruct d; try reflexivity; cbn [is_none negb];
    apply wraps_errors_wrapped; apply ValueValidator_wrapped.
Qed.

Lemma ParameterValidator_legacy_default_witness :
  ParameterValidator_iter_errors Local.resolve Local.one_violation 0
    (new_RefResolver "" JNull)
    (JObj [("name", JStr "limit"); ("in", JStr "query"); ("default", JNull)])
  = ([], Returns tt).
Proof.
  apply (ParameterValidator_legacy_default Local.resolve Local.one_violation 0
           (new_RefResolver "" JNull)
           [("name", JStr "limit"); ("in", JStr "query"); ("default", JNull)]).
  reflexivity.
Defined.

(** ** ParametersValidator: lists without duplicates, malformed parameters *)

Lemma app_nil_iff {A} (l l' : list A) : l ++ l' = [] <-> l = [] /\ l' = [].
Proof.
  split; [apply app_eq_nil|]. intros [-> ->]. reflexivity.
Qed.

Lemma repeated_names_nil_iff :
  forall (l earlier : list (JSON * JSON)),
    repeated_names earlier l = [] <->
    Forall (fun k => key_in k earlier = false) l /\
    ForallOrdPairs (fun a b => key_eq b a = false) l.
Proof.
  induction l as [|k l IH]; intros earlier; cbn [repeated_names].
  - split; [intros _; split; constructor | reflexivity].
  - rewrite app_nil_iff, IH. split.
    + intros [Hk [Hl Hp]].
      assert (E : key_in k earlier = false) by (destruct (key_in k earlier); [discriminate Hk | reflexivity]).
      split.
      * constructor; [exact E|]. eapply Forall_impl; [|exact Hl].
        intros a Ha. cbv beta in Ha. rewrite key_in_app in Ha.
        apply orb_false_iff in Ha. apply Ha.
      * constructor; [|exact Hp]. eapply Forall_impl; [|exact Hl].
        intros a Ha. cbv beta in Ha. rewrite key_in_app in Ha.
        apply orb_false_iff in Ha.
        destruct Ha as [_ Ha]. unfold key_in in Ha. simpl in Ha.
        rewrite orb_false_r in Ha. exact Ha.
    + intros [Hl Hp]. inversion Hl as [|k' l' Hk Hl']; subst.
      inversion Hp as [|k' l' Hkl Hp']; subst.
      split; [rewrite Hk; reflexivity|]. split; [|exact Hp'].
      rewrite Forall_forall in *. intros a Ha. rewrite key_in_app.
      apply orb_false_iff. split; [apply Hl'; exact Ha|].
      unfold key_in. simpl. rewrite orb_false_r. apply Hkl. exact Ha.
Qed.

(** X6: when the validation of a parameter list runs to its end, it has
    emitted no [ParameterDuplicateError] exactly when no two parameters of
    the list have equal names and equal locations; the same name in two
    locations is not a duplicate. *)
Theorem parameters_without_duplicates
    (resolve : RefResolver -> JSON -> Outcome (string * JSON))
    (engine : RefResolver -> JSON -> JSON -> list Violation * Outcome unit)
    (fuel : nat) (r : RefResolver) (parameters : list JSON) :
  outcome (ParametersValidator_iter_errors resolve engine fuel r (JArr parameters))
    = Returns tt ->
  exists keys,
    Forall2 (fun p k => parameter_key resolve fuel r p = Returns k) parameters keys /\
    (of_kind ParameterDuplicate
       (yields (ParametersValidator_iter_errors resolve engine fuel r (JArr parameters)))
     = [] <->
     ForallOrdPairs (fun a b => key_eq b a = false) keys).
Proof.
  intros H. unfold ParametersValidator_iter_errors in *.
  rewrite outcome_wraps_errors in H. simpl py_iter in *.
  rewrite bind_lift_returns in *.
  destruct (iter_parameters_from_duplicates resolve engine fuel r parameters [] [])
    as (keys & Hkeys & Hdup).
  - constructor.
  - intros k _. reflexivity.
  - exact H.
  - exists keys. split; [exact Hkeys|].
    rewrite of_kind_yields_wraps by discriminate. rewrite Hdup. split.
    + intros E. apply map_eq_nil in E.
      apply (repeated_names_nil_iff keys []) in E. apply E.
    + intros P. replace (repeated_names [] keys) with (@nil JSON); [reflexivity|].
      symmetry. apply repeated_names_nil_iff. split; [|exact P].
      apply Forall_forall. intros k _. reflexivity.
Qed.

Lemma parameters_without_duplicates_witness :
  exists keys,
    Forall2 (fun p k => parameter_key Local.resolve 0 (new_RefResolver "" JNull) p
                        = Returns k)
      [Docs.id_in_path; JObj [("name", JStr "id"); ("in", JStr "query")]] keys /\
    (of_kind ParameterDuplicate
       (yields (ParametersValidator_iter_errors Local.resolve Local.no_value_violations
                  0 (new_RefResolver "" JNull)
                  (JArr [Docs.id_in_path;
                         JObj [("name", JStr "id"); ("in", JStr "query")]])))
     = [] <->
     ForallOrdPairs (fun a b => key_eq b a = false) keys).
Proof.
  apply (parameters_without_duplicates Local.resolve Local.no_value_violations 0
           (new_RefResolver "" JNull)
           [Docs.id_in_path; JObj [("name", JStr "id"); ("in", JStr "query")]]).
  reflexivity.
Defined.

(** X7: a parameter object that has no [name] (or, having one, no [in])
    stops the validation of the list with a [KeyError] for that key,
    after the errors of the parameter itself: the parameters after it are
    not looked at. *)
Theorem parameters_missing_key
    (resolve : RefResolver -> JSON -> Outcome (string * JSON))
    (engine : RefResolver -> JSON -> JSON -> list Violation * Outcome unit)
    (fuel : nat) (r : RefResolver) (m : list (string * JSON)) (rest : list JSON) :
  is_ref (JObj m) = false ->
  outcome (ParameterValidator_iter_errors resolve engine fuel r (JObj m)) = Returns tt ->
  (lookup "name" m = None ->
   ParametersValidator_iter_errors resolve engine fuel r (JArr (JObj m :: rest)) =
   (yields (ParameterValidator_iter_errors resolve engine fuel r (JObj m)),
    Raises (KeyError "name"))) /\
  (lookup "name" m <> None -> lookup "in" m = None ->
   ParametersValidator_iter_errors resolve engine fuel r (JArr (JObj m :: rest)) =
   (yields (ParameterValidator_iter_errors resolve engine fuel r (JObj m)),
    Raises (KeyError "in"))).
Proof.
  intros Hr Hp.
  assert (W : map wrap_error
                (yields (ParameterValidator_iter_errors resolve engine fuel r (JObj m)))
              = yields (ParameterValidator_iter_errors resolve engine fuel r (JObj m))).
  { unfold ParameterValidator_iter_errors. rewrite yields_wraps_errors.
    apply wrapped_map. }
  assert (U : forall (k : unit -> Gen unit),
            bind (ParameterValidator_iter_errors resolve engine fuel r (JObj m)) k
            = (yields (ParameterValidator_iter_errors resolve engine fuel r (JObj m))
                 ++ fst (k tt), snd (k tt))).
  { intros k. unfold bind. unfold outcome in Hp. rewrite Hp. reflexivity. }
  split.
  - intros Hn. unfold ParametersValidator_iter_errors. simpl py_iter.
    rewrite bind_lift_returns. cbn [iter_parameters_from].
    rewrite (dereference_not_ref resolve fuel r (JObj m) Hr), bind_lift_returns.
    rewrite U. cbn [py_getitem]. rewrite Hn. unfold wraps_errors.
    cbn [fst snd bind lift]. rewrite app_nil_r, W. reflexivity.
  - intros Hn Hi. unfold ParametersValidator_iter_errors. simpl py_iter.
    rewrite bind_lift_returns. cbn [iter_parameters_from].
    rewrite (dereference_not_ref resolve fuel r (JObj m) Hr), bind_lift_returns.
    rewrite U. cbn [py_getitem]. rewrite Hi.
    destruct (lookup "name" m) as [n|]; [|contradiction].
    unfold wraps_errors. cbn [fst snd bind lift app].
    rewrite app_nil_r, W. reflexivity.
Qed.

Lemma parameters_missing_key_witness :
  ParametersValidator_iter_errors Local.resolve Local.no_value_violations 0
    (new_RefResolver "" JNull)
    (JArr [JObj [("in", JStr "path")]; Docs.id_in_path; Docs.id_in_path])
  = ([], Raises (KeyError "name")).
Proof.
  apply (proj1 (parameters_missing_key Local.resolve Local.no_value_violations 0
                  (new_RefResolver "" JNull) [("in", JStr "path")]
                  [Docs.id_in_path; Docs.id_in_path] eq_refl eq_refl)).
  reflexivity.
Defined.

(** ** SchemaValidator: a schema that lists itself in [allOf] *)

(** X8: a schema whose [allOf] starts with a member that dereferences to the
    schema itself is validated without end: the validation re-enters
    itself on that member before anything is emitted. *)
Theorem SchemaValidator_self_allOf_diverges
    (resolve : RefResolver -> JSON -> Outcome (string * JSON))
    (engine : RefResolver -> JSON -> JSON -> list Violation * Outcome unit)
    (r : RefResolver) (schema : JSON) (m : list (string * JSON))
    (others : list JSON) :
  (forall fuel, dereference resolve (S fuel) r schema = Returns (JObj m)) ->
  lookup "allOf" m = Some (JArr (schema :: others)) ->
  forall fuel rp,
    SchemaValidator_iter_errors resolve engine fuel r schema rp = ([], Diverges).
Proof.
  intros Hd Ha. induction fuel as [|fuel IH]; intros rp; [reflexivity|].
  rewrite (SchemaValidator_unfold resolve engine fuel r schema m rp (Hd fuel)).
  unfold iter_allOf_errors, has_key, get. rewrite Ha. simpl py_iter.
  rewrite bind_lift_returns. cbn [for_each]. rewrite (IH false). reflexivity.
Qed.

Lemma SchemaValidator_self_allOf_diverges_witness :
  SchemaValidator_iter_errors Local.resolve Local.no_value_violations 7
    (new_RefResolver "" Docs.self_allOf) (Docs.ref "#/Node") true = ([], Diverges).
Proof.
  apply (SchemaValidator_self_allOf_diverges Local.resolve Local.no_value_violations
           (new_RefResolver "" Docs.self_allOf) (Docs.ref "#/Node")
           [("allOf", JArr [Docs.ref "#/Node"])] []).
  - intros fuel. reflexivity.
  - reflexivity.
Defined.

(** ** The operation-id registry *)

(** X9: an operation node that does not dereference to an object (a null or
    a string under a method key, a reference that fails) is not
    registered and emits nothing; the validation stops there. *)
Theorem operation_not_an_object
    (resolve : RefResolver -> JSON -> Outcome (string * JSON))
    (engine : RefResolver -> JSON -> JSON -> list Violation * Outcome unit)
    (parse : string -> Outcome (list ParseItem))
    (fuel : nat) (r : RefResolver) (url name : string)
    (operation path_parameters : JSON) (seen_ids : list JSON) :
  (forall m, dereference resolve fuel r operation <> Returns (JObj m)) ->
  let run := OperationValidator_iter_errors resolve engine parse fuel r url name
               operation path_parameters seen_ids in
  yields (fst run) = [] /\ snd run = seen_ids /\
  outcome (fst run) =
    match dereference resolve fuel r operation with
    | Returns _ => Raises AttributeError
    | Raises x => Raises x
    | Diverges => Diverges
    end.
Proof.
  intros H run. subst run.
  unfold OperationValidator_iter_errors, st_wraps_errors, st_bind, st_lift.
  cbn [fst snd lift].
  destruct (dereference resolve fuel r operation) as [v| |]; cbn [fst snd].
  - destruct v; try (repeat split; reflexivity).
    exfalso. apply (H m). reflexivity.
  - repeat split; reflexivity.
  - repeat split; reflexivity.
Qed.

Lemma operation_not_an_object_witness :
  let run := OperationValidator_iter_errors Local.resolve Local.no_value_violations
               Local.parse 0 (new_RefResolver "" JNull) "/items/{id}" "get"
               JNull (JArr []) [JStr "listItems"] in
  yields (fst run) = [] /\ snd run = [JStr "listItems"] /\
  outcome (fst run) = Raises AttributeError.
Proof.
  apply (operation_not_an_object Local.resolve Local.no_value_violations Local.parse
           0 (new_RefResolver "" JNull) "/items/{id}" "get" JNull (JArr [])
           [JStr "listItems"]).
  intros m C. discriminate C.
Defined.

Lemma only_appends_lift {A} (g : Gen A) : only_appends (st_lift g).
Proof. intros seen. exists []. symmetry. apply app_nil_r. Qed.

Lemma only_appends_bind {A B} (c : StGen A) (f : A -> StGen B) :
  only_appends c -> (forall a, only_appends (f a)) -> only_appends (st_bind c f).
Proof.
  intros Hc Hf seen. unfold st_bind. destruct (Hc seen) as [added Ha].
  destruct (snd (fst (c seen))) as [a| |]; cbn [snd].
  - destruct (Hf a (snd (c seen))) as [added' Ha'].
    exists (added ++ added'). rewrite Ha', Ha, app_assoc. reflexivity.
  - exists added. exact Ha.
  - exists added. exact Ha.
Qed.

Lemma only_appends_wraps {A} (c : StGen A) :
  only_appends c -> only_appends (st_wraps_errors c).
Proof. intros Hc seen. exact (Hc seen). Qed.

Lemma only_appends_for_each {A} (l : list A) (f : A -> StGen unit) :
  (forall x, only_appends (f x)) -> only_appends (st_for_each l f).
Proof.
  intros Hf. induction l as [|x l IH]; cbn [st_for_each].
  - apply only_appends_lift.
  - apply only_appends_bind; [apply Hf | intros _; exact IH].
Qed.

Lemma OperationValidator_only_appends
    (resolve : RefResolver -> JSON -> Outcome (string * JSON))
    (engine : RefResolver -> JSON -> JSON -> list Violation * Outcome unit)
    (parse : string -> Outcome (list ParseItem))
    (fuel : nat) (r : RefResolver) (url name : string)
    (operation path_parameters : JSON) :
  only_appends (OperationValidator_iter_errors resolve engine parse fuel r url name
                  operation path_parameters).
Proof.
  unfold OperationValidator_iter_errors. apply only_appends_wraps.
  apply only_appends_bind; [apply only_appends_lift|]. intros v.
  destruct v; try apply only_appends_lift.
  apply only_appends_bind; [intros seen; exists []; symmetry; apply app_nil_r|].
  intros seen0. apply only_appends_bind; [apply only_appends_lift|]. intros _.
  apply only_appends_bind; [|intros _; apply only_appends_lift].
  intros seen. eexists. reflexivity.
Qed.

(** X10: whatever the [paths] node is and however its traversal ends, the
    registry it leaves is the one it was given with ids appended: no id
    is ever removed or replaced. *)
Theorem registry_only_grows
    (resolve : RefResolver -> JSON -> Outcome (string * JSON))
    (engine : RefResolver -> JSON -> JSON -> list Violation * Outcome unit)
    (parse : string -> Outcome (list ParseItem))
    (fuel : nat) (r : RefResolver) (paths : JSON) (seen_ids : list JSON) :
  exists added,
    snd (PathsValidator_iter_errors resolve engine parse fuel r paths seen_ids)
    = seen_ids ++ added.
Proof.
  revert seen_ids. change (only_appends
    (PathsValidator_iter_errors resolve engine parse fuel r paths)).
  unfold PathsValidator_iter_errors. apply only_appends_wraps.
  apply only_appends_bind; [apply only_appends_lift|]. intros paths_deref.
  apply only_appends_bind; [apply only_appends_lift|]. intros entries.
  apply only_appends_for_each. intros entry.
  unfold PathValidator_iter_errors. apply only_appends_wraps.
  apply only_appends_bind; [apply only_appends_lift|]. intros item.
  unfold PathItemValidator_iter_errors. apply only_appends_wraps.
  apply only_appends_bind; [apply only_appends_lift|]. intros item'.
  apply only_appends_bind; [apply only_appends_lift|]. intros parameters.
  apply only_appends_bind; [apply only_appends_lift|]. intros _.
  apply only_appends_bind; [apply only_appends_lift|]. intros fields.
  apply only_appends_for_each. intros field. unfold iter_field.
  destruct (negb (str_in (fst field) OPERATIONS)); [apply only_appends_lift|].
  apply OperationValidator_only_appends.
Qed.

(** ** SpecValidator: the three passes *)

Lemma map_wrap_from_engine (vs : list Violation) :
  map wrap_error (map ValidationError vs) = map OpenAPIValidationError vs.
Proof. rewrite map_map. reflexivity. Qed.

(** X11: when the whole-document pass and the [paths] pass return, the errors
    of [iter_errors] are the violations of the whole-document pass, each
    as an [OpenAPIValidationError], then the errors of the [paths] pass,
    then those of the [components] pass, which also decides how
    [iter_errors] ends.  A missing [paths] or [components] key stands for
    an empty object, and the [paths] pass starts from an empty registry. *)
Theorem SpecValidator_three_passes
    (resolve : RefResolver -> JSON -> Outcome (string * JSON))
    (whole : RefResolver -> JSON -> list Violation * Outcome unit)
    (engine : RefResolver -> JSON -> JSON -> list Violation * Outcome unit)
    (parse : string -> Outcome (list ParseItem))
    (fuel : nat) (m : list (string * JSON)) (spec_url : string) :
  let resolver := new_RefResolver spec_url (JObj m) in
  let paths_pass :=
    fst (PathsValidator_iter_errors resolve engine parse fuel resolver
           (get m "paths" (JObj [])) []) in
  let components_pass :=
    ComponentsValidator_iter_errors resolve engine fuel resolver
      (get m "components" (JObj [])) in
  snd (whole resolver (JObj m)) = Returns tt ->
  outcome paths_pass = Returns tt ->
  SpecValidator_iter_errors resolve whole engine parse fuel (JObj m) spec_url =
  (map OpenAPIValidationError (fst (whole resolver (JObj m)))
     ++ yields paths_pass ++ yields components_pass,
   outcome components_pass).
Proof.
  intros resolver paths_pass components_pass Hw Hp.
  unfold SpecValidator_iter_errors. fold resolver. cbn [py_get].
  assert (Hw' : outcome (from_engine (whole resolver (JObj m))) = Returns tt)
    by exact Hw.
  assert (Wp : wrapped (yields paths_pass)).
  { unfold paths_pass, PathsValidator_iter_errors, st_wraps_errors.
    cbn [fst]. rewrite yields_wraps_errors. apply wrapped_map. }
  assert (Wc : wrapped (yields components_pass)).
  { unfold components_pass, ComponentsValidator_iter_errors.
    rewrite yields_wraps_errors. apply wrapped_map. }
  rewrite (bind_returns_eq _ _ tt Hw'), bind_lift_returns. fold paths_pass.
  rewrite (bind_returns_eq _ _ tt Hp), bind_lift_returns. fold components_pass.
  unfold wrapped in Wp, Wc.
  unfold wraps_errors. cbn [fst snd]. rewrite map_app.
  change (yields (yields paths_pass ++ yields components_pass,
                  outcome components_pass))
    with (yields paths_pass ++ yields components_pass).
  change (outcome (yields paths_pass ++ yields components_pass,
                   outcome components_pass))
    with (outcome components_pass).
  rewrite map_app, Wp, Wc.
  unfold yields at 1, from_engine. cbn [fst]. rewrite map_wrap_from_engine.
  reflexivity.
Qed.

Lemma SpecValidator_three_passes_witness :
  SpecValidator_iter_errors Local.resolve Local.no_violations
    Local.no_value_violations Local.parse 1 Docs.same_id_spec "" =
  ([DuplicateOperationIDError (JStr "listItems") "get" "/b"], Returns tt).
Proof.
  apply (SpecValidator_three_passes Local.resolve Local.no_violations
           Local.no_value_violations Local.parse 1
           [("paths",
             JObj [("/a", JObj [("get", JObj [("operationId", JStr "listItems")])]);
                   ("/b", JObj [("get", JObj [("operationId", JStr "listItems")])])])]
           ""); reflexivity.
Defined.

(** X12: a document that is not an object gets the whole-document pass and
    then fails on [spec.get]: the structural passes never start. *)
Theorem SpecValidator_document_not_an_object
    (resolve : RefResolver -> JSON -> Outcome (string * JSON))
    (whole : RefResolver -> JSON -> list Violation * Outcome unit)
    (engine : RefResolver -> JSON -> JSON -> list Violation * Outcome unit)
    (parse : string -> Outcome (list ParseItem))
    (fuel : nat) (spec : JSON) (spec_url : string) :
  (forall m, spec <> JObj m) ->
  snd (whole (new_RefResolver spec_url spec) spec) = Returns tt ->
  SpecValidator_iter_errors resolve whole engine parse fuel spec spec_url =
  (map OpenAPIValidationError (fst (whole (new_RefResolver spec_url spec) spec)),
   Raises AttributeError).
Proof.
  intros Hs Hw. unfold SpecValidator_iter_errors.
  assert (Hw' : outcome (from_engine (whole (new_RefResolver spec_url spec) spec))
                = Returns tt) by exact Hw.
  assert (G : py_get spec "paths" (JObj []) = Raises AttributeError).
  { destruct spec; try reflexivity. exfalso. apply (Hs m). reflexivity. }
  rewrite G. unfold wraps_errors, bind. unfold outcome in Hw'. rewrite Hw'.
  cbn [fst snd lift]. rewrite app_nil_r. unfold from_engine. cbn [fst].
  rewrite map_wrap_from_engine. reflexivity.
Qed.

Lemma SpecValidator_document_not_an_object_witness :
  SpecValidator_iter_errors Local.resolve Local.no_violations
    Local.no_value_violations Local.parse 0 (JArr []) "" =
  ([], Raises AttributeError).
Proof.
  apply (SpecValidator_document_not_an_object Local.resolve Local.no_violations
           Local.no_value_violations Local.parse 0 (JArr []) "").
  - intros m C. discriminate C.
  - reflexivity.
Defined.

(** ** PathItemValidator: fields that are not operations *)

Lemma lookup_filter_kept (p : string * JSON -> bool) (k : string)
    (m : list (string * JSON)) :
  (forall v, p (k, v) = true) -> lookup k (filter p m) = lookup k m.
Proof.
  intros Hk. induction m as [|[k' v] m IH]; [reflexivity|].
  cbn [filter lookup]. destruct (p (k', v)) eqn:E.
  - cbn [lookup]. rewrite IH. reflexivity.
  - rewrite IH. destruct (String.eqb k k') eqn:Q; [|reflexivity].
    apply String.eqb_eq in Q. subst k'. rewrite Hk in E. discriminate E.
Qed.

Lemma lookup_filter_dropped (p : string * JSON -> bool) (k : string)
    (m : list (string * JSON)) :
  (forall v, p (k, v) = false) -> lookup k (filter p m) = None.
Proof.
  intros Hk. induction m as [|[k' v] m IH]; [reflexivity|].
  cbn [filter]. destruct (p (k', v)) eqn:E; [|exact IH].
  cbn [lookup]. destruct (String.eqb k k') eqn:Q; [|exact IH].
  apply String.eqb_eq in Q. subst k'. rewrite Hk in E. discriminate E.
Qed.

Lemma st_bind_ext {A B} (c : StGen A) (f g : A -> StGen B) (seen : list JSON) :
  (forall a s, f a s = g a s) -> st_bind c f seen = st_bind c g seen.
Proof.
  intros H. unfold st_bind. destruct (snd (fst (c seen))); [|reflexivity..].
  rewrite H. reflexivity.
Qed.

Section PathItemFields.

Variable resolve : RefResolver -> JSON -> Outcome (string * JSON).
Variable engine : RefResolver -> JSON -> JSON -> list Violation * Outcome unit.
Variable parse : string -> Outcome (list ParseItem).
Variable fuel : nat.
Variable r : RefResolver.
Variable url : string.
Variable parameters : JSON.

Local Abbreviation visit := (iter_field resolve engine parse fuel r url parameters).

Lemma st_for_each_validated_fields :
  forall (fields : list (string * JSON)) (seen : list JSON),
    st_for_each (filter is_validated_field fields) visit seen =
    st_for_each fields visit seen.
Proof.
  induction fields as [|field fields IH]; intros seen; [reflexivity|].
  cbn [filter st_for_each]. destruct (is_validated_field field) eqn:E.
  - cbn [st_for_each]. apply st_bind_ext. intros _ s. apply IH.
  - rewrite IH. unfold is_validated_field in E. apply orb_false_iff in E as [E _].
    unfold iter_field at 2. rewrite E. cbn [negb].
    symmetry. exact (st_bind_lift_returns tt _ seen).
Qed.

End PathItemFields.

(** X13: on a path item object, only the operations under the eight method
    keys and the path-level [parameters] count: removing every other
    field ([summary], [description], [servers], extensions) changes
    neither the errors, nor the ending, nor the registry. *)
Theorem PathItemValidator_other_fields_ignored
    (resolve : RefResolver -> JSON -> Outcome (string * JSON))
    (engine : RefResolver -> JSON -> JSON -> list Violation * Outcome unit)
    (parse : string -> Outcome (list ParseItem))
    (fuel : nat) (r : RefResolver) (url : string) (m : list (string * JSON))
    (seen_ids : list JSON) :
  is_ref (JObj m) = false ->
  PathItemValidator_iter_errors resolve engine parse fuel r url
    (JObj (filter is_validated_field m)) seen_ids =
  PathItemValidator_iter_errors resolve engine parse fuel r url (JObj m) seen_ids.
Proof.
  intros Hr.
  assert (Hr' : is_ref (JObj (filter is_validated_field m)) = false).
  { cbn [is_ref]. unfold has_key.
    rewrite lookup_filter_dropped; [reflexivity|]. intros v. reflexivity. }
  unfold PathItemValidator_iter_errors, st_wraps_errors.
  rewrite (dereference_not_ref resolve fuel r _ Hr),
          (dereference_not_ref resolve fuel r _ Hr').
  rewrite !st_bind_lift_returns. cbn [py_get py_items].
  rewrite !st_bind_lift_returns.
  replace (get (filter is_validated_field m) "parameters" (JArr []))
    with (get m "parameters" (JArr [])).
  2: { unfold get. rewrite lookup_filter_kept; [reflexivity|]. intros v. reflexivity. }
  rewrite (st_bind_ext _ _
             (fun _ => fields <~ st_lift (lift (Returns m)) ;;
                       st_for_each fields
                         (iter_field resolve engine parse fuel r url
                            (get m "parameters" (JArr []))))
             seen_ids); [reflexivity|].
  intros _ s. rewrite !st_bind_lift_returns. apply st_for_each_validated_fields.
Qed.

Lemma PathItemValidator_other_fields_ignored_witness :
  PathItemValidator_iter_errors Local.resolve Local.no_value_violations Local.parse 0
    (new_RefResolver "" JNull) "/items/{id}"
    (JObj [("parameters", JArr [Docs.id_in_path]);
           ("get", JObj [("operationId", JStr "getItem")])]) [] =
  PathItemValidator_iter_errors Local.resolve Local.no_value_violations Local.parse 0
    (new_RefResolver "" JNull) "/items/{id}" Docs.item_path_item [].
Proof.
  apply (PathItemValidator_other_fields_ignored Local.resolve
           Local.no_value_violations Local.parse 0 (new_RefResolver "" JNull)
           "/items/{id}"
           [("summary", JStr "one item");
            ("parameters", JArr [Docs.id_in_path]);
            ("get", JObj [("operationId", JStr "getItem")]);
            ("x-internal", JBool true)] []).
  reflexivity.
Defined.

(** ** PathItemValidator: what a path item adds to the registry *)

Lemma st_bind_returns_inv {A B} (c : StGen A) (k : A -> StGen B)
    (seen : list JSON) (b : B) :
  outcome (fst (st_bind c k seen)) = Returns b ->
  exists a,
    outcome (fst (c seen)) = Returns a /\
    outcome (fst (k a (snd (c seen)))) = Returns b /\
    snd (st_bind c k seen) = snd (k a (snd (c seen))).
Proof.
  unfold st_bind, outcome. destruct (snd (fst (c seen))) as [a| |]; cbn [fst snd];
    intros H; try discriminate H.
  exists a. repeat split. exact H.
Qed.

Section PathItemRegistry.

Variable resolve : RefResolver -> JSON -> Outcome (string * JSON).
Variable engine : RefResolver -> JSON -> JSON -> list Violation * Outcome unit.
Variable parse : string -> Outcome (list ParseItem).
Variable fuel : nat.
Variable r : RefResolver.
Variable url : string.
Variable parameters : JSON.

Local Abbreviation visit := (iter_field resolve engine parse fuel r url parameters).

Lemma st_for_each_registers :
  forall (fields : list (string * JSON)) (seen : list JSON),
    outcome (fst (st_for_each fields visit seen)) = Returns tt ->
    exists ids,
      Forall2 (fun field id =>
                 exists om, dereference resolve fuel r (snd field) = Returns (JObj om) /\
                            id = get om "operationId" JNull)
        (filter (fun field => str_in (fst field) OPERATIONS) fields) ids /\
      snd (st_for_each fields visit seen) = seen ++ ids.
Proof.
  induction fields as [|field fields IH]; intros seen H.
  - exists []. split; [constructor|]. cbn. symmetry. apply app_nil_r.
  - cbn [st_for_each] in H |- *.
    destruct (st_bind_returns_inv _ _ _ _ H) as ([] & Hv & Hrest & ->).
    destruct (IH _ Hrest) as (ids & Hids & ->).
    cbn [filter]. unfold iter_field in Hv |- *.
    destruct (str_in (fst field) OPERATIONS) eqn:E; cbn [negb] in Hv |- *.
    + destruct (dereference resolve fuel r (snd field)) as [v| |] eqn:D.
      * destruct v as [| | | | |om];
          try (unfold OperationValidator_iter_errors, st_wraps_errors, st_bind,
                 st_lift in Hv; cbn [fst snd lift] in Hv; rewrite D in Hv;
               discriminate Hv).
        rewrite (OperationValidator_unfold resolve engine parse fuel r url
                   (fst field) (snd field) parameters seen om D).
        cbn [snd]. exists (get om "operationId" JNull :: ids). split.
        -- constructor; [|exact Hids]. exists om. split; [exact D | reflexivity].
        -- rewrite <- app_assoc. reflexivity.
      * unfold OperationValidator_iter_errors, st_wraps_errors, st_bind,
          st_lift in Hv. cbn [fst snd lift] in Hv. rewrite D in Hv.
        discriminate Hv.
      * unfold OperationValidator_iter_errors, st_wraps_errors, st_bind,
          st_lift in Hv. cbn [fst snd lift] in Hv. rewrite D in Hv.
        discriminate Hv.
    + exists ids. split; [exact Hids | reflexivity].
Qed.

End PathItemRegistry.

(** X14: when the validation of a path item object runs to its end, the
    registry has gained exactly one entry for each field under a method
    key, in the order of the fields: the [operationId] of the dereferenced
    operation, or [None] when it has none. *)
Theorem path_item_registers_each_operation
    (resolve : RefResolver -> JSON -> Outcome (string * JSON))
    (engine : RefResolver -> JSON -> JSON -> list Violation * Outcome unit)
    (parse : string -> Outcome (list ParseItem))
    (fuel : nat) (r : RefResolver) (url : string) (m : list (string * JSON))
    (seen_ids : list JSON) :
  is_ref (JObj m) = false ->
  let run := PathItemValidator_iter_errors resolve engine parse fuel r url (JObj m)
               seen_ids in
  outcome (fst run) = Returns tt ->
  exists ids,
    Forall2 (fun field id =>
               exists om, dereference resolve fuel r (snd field) = Returns (JObj om) /\
                          id = get om "operationId" JNull)
      (filter (fun field => str_in (fst field) OPERATIONS) m) ids /\
    snd run = seen_ids ++ ids.
Proof.
  intros Hr run. subst run.
  unfold PathItemValidator_iter_errors, st_wraps_errors. cbn [fst snd].
  rewrite outcome_wraps_errors.
  rewrite (dereference_not_ref resolve fuel r _ Hr).
  rewrite !st_bind_lift_returns. cbn [py_get py_items].
  rewrite !st_bind_lift_returns.
  intros H. destruct (st_bind_returns_inv _ _ _ _ H) as ([] & _ & H' & ->).
  cbn [st_lift snd] in H' |- *. rewrite st_bind_lift_returns in H' |- *.
  apply st_for_each_registers. exact H'.
Qed.

Lemma path_item_registers_each_operation_witness :
  let run := PathItemValidator_iter_errors Local.resolve Local.no_value_violations
               Local.parse 0 (new_RefResolver "" JNull) "/items"
               (JObj [("summary", JStr "items");
                      ("get", JObj [("operationId", JStr "listItems")]);
                      ("post", JObj [])])
               [JStr "health"] in
  exists ids,
    Forall2 (fun field id =>
               exists om,
                 dereference Local.resolve 0 (new_RefResolver "" JNull) (snd field)
                 = Returns (JObj om) /\
                 id = get om "operationId" JNull)
      [("get", JObj [("operationId", JStr "listItems")]); ("post", JObj [])] ids /\
    snd run = [JStr "health"] ++ ids.
Proof.
  apply (path_item_registers_each_operation Local.resolve Local.no_value_violations
           Local.parse 0 (new_RefResolver "" JNull) "/items"
           [("summary", JStr "items");
            ("get", JObj [("operationId", JStr "listItems")]);
            ("post", JObj [])]
           [JStr "health"]); reflexivity.
Defined.

(** ** OperationValidator: which placeholders are reported *)

Lemma In_filter_None (s : string) (l : list (option string)) :
  In s (filter_None l) <-> s <> "" /\ In (Some s) l.
Proof.
  induction l as [|[x|] l IH]; cbn [filter_None In].
  - split; [intros [] | intros [_ []]].
  - destruct (String.eqb x "") eqn:E.
    + apply String.eqb_eq in E. subst x. rewrite IH. split.
      * intros [Hs Hl]. split; [exact Hs | right; exact Hl].
      * intros [Hs [Hx|Hl]]; [injection Hx as <-; contradiction|].
        split; assumption.
    + apply String.eqb_neq in E. cbn [In]. rewrite IH. split.
      * intros [<-|[Hs Hl]]; [split; [exact E | left; reflexivity]|].
        split; [exact Hs | right; exact Hl].
      * intros [Hs [Hx|Hl]]; [left; injection Hx as <-; reflexivity|].
        right. split; assumption.
  - rewrite IH. split.
    + intros [Hs Hl]. split; [exact Hs | right; exact Hl].
    + intros [Hs [Hx|Hl]]; [discriminate Hx | split; assumption].
Qed.

(** X15: when the validation of an operation runs to its end, every
    [UnresolvableParameterError] it has emitted carries the method name
    and the URL of the operation, and names a field of the parsed URL
    template that is not empty: an empty placeholder is never reported. *)
Theorem unresolvable_errors_name_placeholders
    (resolve : RefResolver -> JSON -> Outcome (string * JSON))
    (engine : RefResolver -> JSON -> JSON -> list Violation * Outcome unit)
    (parse : string -> Outcome (list ParseItem))
    (fuel : nat) (r : RefResolver) (url name : string)
    (operation path_parameters : JSON) (seen_ids : list JSON)
    (m : list (string * JSON)) :
  dereference resolve fuel r operation = Returns (JObj m) ->
  let run := OperationValidator_iter_errors resolve engine parse fuel r url name
               operation path_parameters seen_ids in
  outcome (fst run) = Returns tt ->
  forall path name' url',
    In (UnresolvableParameterError path name' url') (yields (fst run)) ->
    name' = name /\ url' = url /\ path <> "" /\
    exists items item,
      parse url = Returns items /\ In item items /\ field_name item = Some path.
Proof.
  intros Hd run. subst run.
  rewrite (OperationValidator_unfold _ _ _ _ _ _ _ _ _ _ _ Hd). cbn [fst].
  rewrite outcome_wraps_errors.
  set (dup := if negb (is_none (get m "operationId" JNull))
                 && py_in (get m "operationId" JNull) seen_ids
              then yield (DuplicateOperationIDError (get m "operationId" JNull)
                            name url)
              else ret tt).
  assert (Hdup : outcome dup = Returns tt) by (subst dup; destruct (_ && _); reflexivity).
  assert (Hk : of_kind UnresolvableParameter (yields dup) = [])
    by (subst dup; destruct (_ && _); reflexivity).
  rewrite (outcome_bind _ _ tt Hdup). intros Hout path name' url' Hin.
  assert (Hin' : In (UnresolvableParameterError path name' url')
                   (of_kind UnresolvableParameter
                      (yields (wraps_errors
                         (dup ;;
                          iter_operation_parameters resolve engine parse fuel r url
                            name m
                            (if py_truthy path_parameters then path_parameters
                             else JArr [])))))).
  { unfold of_kind. apply filter_In. split; [exact Hin | reflexivity]. }
  rewrite of_kind_yields_wraps in Hin' by discriminate.
  rewrite (yields_bind _ _ tt Hdup), of_kind_app, Hk in Hin'. cbn [app] in Hin'.
  destruct (iter_operation_parameters_unresolvable resolve engine parse fuel r url
              name m _ Hout) as (path_names & names & placeholders & _ & _ & Hu & E).
  rewrite E in Hin'. apply in_map_iff in Hin' as (p & Hp & Hpin).
  injection Hp as E1 E2 E3. subst path name' url'.
  apply filter_In in Hpin as [Hpin _].
  unfold OperationValidator_get_path_params_from_url in Hu.
  destruct (parse url) as [items| |]; simpl in Hu; try discriminate Hu.
  injection Hu as <-. apply In_filter_None in Hpin as [Hne Hsome].
  apply in_map_iff in Hsome as (item & Hf & Hitem).
  repeat split; try assumption. exists items, item. repeat split; assumption.
Qed.

Lemma unresolvable_errors_name_placeholders_witness :
  In (UnresolvableParameterError "id" "get" "/items/{id}")
     (yields (fst (OperationValidator_iter_errors Local.resolve
                     Local.no_value_violations Local.parse 0
                     (new_RefResolver "" JNull) "/items/{id}" "get" (JObj [])
                     (JArr []) []))) /\
  ("get" = "get" /\ "/items/{id}" = "/items/{id}" /\ "id" <> "" /\
   exists items item,
     Local.parse "/items/{id}" = Returns items /\ In item items /\
     field_name item = Some "id").
Proof.
  assert (H : In (UnresolvableParameterError "id" "get" "/items/{id}")
                (yields (fst (OperationValidator_iter_errors Local.resolve
                                Local.no_value_violations Local.parse 0
                                (new_RefResolver "" JNull) "/items/{id}" "get"
                                (JObj []) (JArr []) []))))
    by (left; reflexivity).
  split; [exact H|].
  apply (unresolvable_errors_name_placeholders Local.resolve
           Local.no_value_violations Local.parse 0 (new_RefResolver "" JNull)
           "/items/{id}" "get" (JObj []) (JArr []) [] [] eq_refl eq_refl
           "id" "get" "/items/{id}" H).
Defined.

(** ** ComponentsValidator: what it can report *)

(** X16: the validation of [components] reports schema violations and
    [ExtraParametersError]s only: nothing about parameters, placeholders
    or operation ids, whatever the schemas are. *)
Theorem components_error_kinds
    (resolve : RefResolver -> JSON -> Outcome (string * JSON))
    (engine : RefResolver -> JSON -> JSON -> list Violation * Outcome unit)
    (fuel : nat) (r : RefResolver) (components : JSON) :
  Forall (fun e => kind e = SchemaViolation \/ kind e = ExtraParameters)
    (yields (ComponentsValidator_iter_errors resolve engine fuel r components)).
Proof.
  assert (K : kinds_within [SchemaViolation; ExtraParameters]
                (yields (ComponentsValidator_iter_errors resolve engine fuel r
                           components))).
  { unfold ComponentsValidator_iter_errors, SchemasValidator_iter_errors. kinds.
    apply kinds_within_for_each. intros entry _.
    apply (SchemaValidator_kinds resolve engine fuel r (snd entry) true). }
  eapply Forall_impl; [|exact K]. intros e [H|[H|[]]]; [left|right]; symmetry; exact H.
Qed.
